(** * Phonovibrogram pipeline of openhsv ([openhsv/analysis/pvg.py])

    A shallow embedding of the geometry -> label -> aggregate pipeline:
    [_find_orthogonal_points], [_create_maps], [_find_parts], [get_labels]
    and [compute_pvg], followed by the properties established about them.
    The audio synchronisation of [openhsv/analysis/audio.py]
    ([_rolling_std_numba], [_findTriggerEnd], [sync]) is embedded after the
    pipeline, with the two scipy functions it calls as parameters.

    Conventions of the embedding.
    - numpy arrays are nested lists ([array2], [array3]); an array of shape
      (n, h, w) is a list of n planes, each a list of h rows of w cells.
    - Floating point numbers are real numbers ([R]). In [_create_maps],
      whose cells decide every label, each operation rounds to float64 and
      the store into the [np.float32] array rounds to float32
      ([round_float]). Elsewhere the arithmetic is idealised: the roundings
      of [np.linspace], of the library functions and of [np.std] are not
      modelled, and neither are NaN and the infinities.
    - Python integers are [Z]; loop counters and array indices, which the
      code only draws from [range], are [nat]. The cells of the PVG matrix
      are counts, kept as integers.
    - The [np.int8] label array keeps the two's complement wrap-around of
      the store, written out in [int8].
    - Exceptions are values of [exn]; a computation that may raise returns a
      [result].
    - The functions are modelled twice: on values, where an array is the
      list of its cells, and on a store of array objects ([_h] names), where
      the reads, writes and allocations of every statement are explicit.
      The second model is shown to compute what the first computes. *)

From Stdlib Require Import Reals Lra Lia ZArith.
From stdpp Require Import base list gmap.

(** ** Exceptions and the error monad *)

(** [TypeError] stands for the failures of a call that is handed an object
    of the wrong kind; the store model raises it, and so does [sync] when it
    unpacks a value that is not a pair. *)
Inductive exn : Type :=
  | ValueError
  | IndexError
  | TypeError.

Inductive result (A : Type) : Type :=
  | Ok (a : A)
  | Raise (e : exn).

Arguments Ok {A} a.
Arguments Raise {A} e.

#[global] Instance result_ret : MRet result := fun A a => Ok a.

#[global] Instance result_bind : MBind result := fun A B k m =>
  match m with
  | Ok a => k a
  | Raise e => Raise e
  end.

#[global] Instance result_fmap : FMap result := fun A B f m =>
  match m with
  | Ok a => Ok (f a)
  | Raise e => Raise e
  end.

#[global] Instance R_inhabited : Inhabited R := populate 0%R.

(** ** Arrays *)

Abbreviation array2 A := (list (list A)).
Abbreviation array3 A := (list (list (list A))).

(** [np.zeros] with a fill value of the right type. *)
Definition full2 {A} (h w : nat) (x : A) : array2 A :=
  replicate h (replicate w x).

Definition full3 {A} (n h w : nat) (x : A) : array3 A :=
  replicate n (full2 h w x).

(** [a[i]], raising [IndexError] when [i] is out of range. *)
Definition index {A} (a : list A) (i : nat) : result A :=
  match a !! i with
  | Some x => Ok x
  | None => Raise IndexError
  end.

(** [a[i, j]] *)
Definition index2 {A} (a : array2 A) (i j : nat) : result A :=
  row ← index a i; index row j.

(** Reading a cell without raising, for use in statements. *)
Definition get2 {A} (a : array2 A) (i j : nat) : option A :=
  row ← a !! i; row !! j.

Definition get3 {A} (a : array3 A) (k i j : nat) : option A :=
  plane ← a !! k; get2 plane i j.

(** [a[i, j] = v] and [a[k, i, j] = v], in place. *)
Definition set2 {A} (i j : nat) (v : A) (a : array2 A) : array2 A :=
  alter (fun row => <[j := v]> row) i a.

Definition set3 {A} (k i j : nat) (v : A) (a : array3 A) : array3 A :=
  alter (set2 i j v) k a.

(** An array of shape (h, w) / (n, h, w). *)
Definition shaped2 {A} (h w : nat) (a : array2 A) : Prop :=
  length a = h ∧ Forall (fun row => length row = w) a.

Definition shaped3 {A} (n h w : nat) (a : array3 A) : Prop :=
  length a = n ∧ Forall (shaped2 h w) a.

(** ** Floating-point formats *)

(** The integer nearest to [x], the even one of the two when [x] lies
    halfway. *)
Definition Znearest_even (x : R) : Z :=
  let f := Zfloor x in
  let r := (x - IZR f)%R in
  if Rlt_dec r (1 / 2) then f
  else if Rlt_dec (1 / 2) r then (f + 1)%Z
  else if Z.even f then f else (f + 1)%Z.

(** The binary exponent of [x]: [2 ^ (mag x - 1) <= |x| < 2 ^ mag x] for
    [x <> 0]. *)
Definition mag (x : R) : Z := (Zfloor (ln (Rabs x) / ln 2) + 1)%Z.

(** Rounding to the nearest number of a binary format with [prec] digits
    whose smallest positive number is [2 ^ emin], ties to even, as the
    hardware does for every operation and every store. Numbers beyond the
    range of the format become infinities; they are outside the model. *)
Definition round_float (prec emin : Z) (x : R) : R :=
  let e := Z.max (mag x - prec) emin in
  (IZR (Znearest_even (x * powerRZ 2 (- e))) * powerRZ 2 e)%R.

Definition float64 : R -> R := round_float 53 (-1074).
Definition float32 : R -> R := round_float 24 (-149).

(** ** Loops *)

(** [for x in xs: st = body(x, st)], where the body may raise. *)
Fixpoint for_in {A S} (xs : list A) (body : A -> S -> result S) (st : S)
  : result S :=
  match xs with
  | [] => Ok st
  | x :: xs' => st' ← body x st; for_in xs' body st'
  end.

(** [for k in range(n)] *)
Definition for_range {S} (n : nat) (body : nat -> S -> result S) (st : S)
  : result S :=
  for_in (seq 0 n) body st.

(** [for k in range(n)] with a body that cannot raise. *)
Definition loop_range {S} (n : nat) (body : nat -> S -> S) (st : S) : S :=
  foldl (fun st k => body k st) st (seq 0 n).

(** ** [_create_maps] *)

(** [labels] is an [np.float32] array. The right-hand side
    [y - (c*x + i[j])] is computed in float64, one rounding per operation
    (the loop counters are integers and convert exactly), and the store
    rounds the result to float32. *)
Definition _create_maps (im_shape : nat * nat) (c : R) (i : list R)
  : array3 R :=
  let labels := full3 (length i) im_shape.1 im_shape.2 0%R in
  loop_range (length i) (fun j labels =>
    loop_range im_shape.1 (fun y labels =>
      loop_range im_shape.2 (fun x labels =>
        set3 j y x
          (float32 (float64 (INR y - float64 (float64 (c * INR x) + i !!! j))))
          labels)
      labels)
    labels)
  labels.

(** ** [_find_parts] *)

(** [np.argmin] of a one-dimensional array: the loop keeps the running
    minimum and replaces it only by a strictly smaller value, so the first
    index of the minimum is returned; an empty array raises. *)
Fixpoint argmin_from (l : list R) (idx : nat) (min_value : R) (min_idx : nat)
  : nat :=
  match l with
  | [] => min_idx
  | v :: l' =>
      if Rlt_dec v min_value
      then argmin_from l' (S idx) v idx
      else argmin_from l' (S idx) min_value min_idx
  end.

Definition argmin (l : list R) : result nat :=
  match l with
  | [] => Raise ValueError
  | v0 :: _ => Ok (argmin_from l 0 v0 0)
  end.

(** Storing a machine integer into an [np.int8] cell keeps its low 8 bits,
    read as a signed number. *)
Definition int8 (z : Z) : Z := ((z + 128) mod 256 - 128)%Z.

(** [labels_parallel[:, i, j]] *)
Definition column (labels_parallel : array3 R) (i j : nat) : result (list R) :=
  mapM (fun plane => index2 plane i j) labels_parallel.

(** [np.sqrt(v ** 2)], elementwise, on the stored cells; the rounding of
    the square and of the root is not modelled. *)
Definition sqrt_sq (col : list R) : list R :=
  (fun v => sqrt (v ^ 2)) <$> col.

(** The function is compiled by numba, which does not check array bounds:
    maps smaller than [im_shape] are read out of bounds by the code and are
    outside the model, which raises there. *)
Definition _find_parts (im_shape : nat * nat) (labels_parallel : array3 R)
    (labels_LR : array2 R) : result (array2 Z) :=
  let labels := full2 im_shape.1 im_shape.2 0%Z in
  for_range im_shape.1 (fun i labels =>
    for_range im_shape.2 (fun j labels =>
      lr ← index2 labels_LR i j;
      let sign := if Rge_dec lr 0 then 1%Z else (-1)%Z in
      col ← column labels_parallel i j;
      closest_to ← argmin (sqrt_sq col);
      Ok (set2 i j (int8 (sign * (Z.of_nat closest_to + 1))) labels))
    labels)
  labels.

(** ** [_find_orthogonal_points] *)

(** [np.linspace(start, stop, num)] (endpoint included): a negative [num]
    raises; otherwise the samples are [k * step + start] for [k] in
    [arange(0, num)] with [step = (stop - start) / (num - 1)], the last one
    being overwritten by [stop] when [num > 1]. For [num = 1] there is no
    step and the single sample is [start]. *)
Definition linspace (start stop : R) (num : Z) : result (list R) :=
  if (num <? 0)%Z then Raise ValueError else
  let n := Z.to_nat num in
  let div := (n - 1)%nat in
  let delta := (stop - start)%R in
  let y := INR <$> seq 0 n in
  let y :=
    if (0 <? div)%nat
    then (fun v => v * (delta / INR div))%R <$> y
    else (fun v => v * delta)%R <$> y in
  let y := (fun v => v + start)%R <$> y in
  Ok (if (1 <? n)%nat then <[(n - 1)%nat := stop]> y else y).

(** [np.tan]. The tangent has poles, the floating-point function has none:
    [np.pi / 2] is a double close to, not equal to, a pole. The one pole
    argument the code can form is [-np.pi / 2] (for [coef = 0]), where
    [np.tan] returns the double -16331239353195370. *)
Definition np_tan (x : R) : R :=
  if Req_dec_T x (- (PI / 2)) then (-16331239353195370)%R else tan x.

Definition _find_orthogonal_points (x_low x_high coef intercept : R)
    (steps : Z) : result (list R * list R * R * list R) :=
  let _alpha := atan coef in
  let coef_orth := np_tan (_alpha - PI / 2) in
  xs ← linspace x_low x_high steps;
  let ys := (fun x => coef * x + intercept)%R <$> xs in
  let intercepts_orth := zip_with (fun y x => y - coef_orth * x)%R ys xs in
  Ok (xs, ys, coef_orth, intercepts_orth).

(** ** [get_labels] *)

Definition get_labels (x_low x_high coef intercept : R)
    (image_shape : nat * nat) (steps : Z) : result (array2 Z) :=
  '(xs, ys, coef_orth, intercepts_orth) ←
    _find_orthogonal_points x_low x_high coef intercept steps;
  let labels_parallel := _create_maps image_shape coef_orth intercepts_orth in
  labels_LR ← index (_create_maps image_shape coef [intercept]) 0;
  _find_parts image_shape labels_parallel labels_LR.

(** ** [compute_pvg] *)

(** [np.arange(1, stop)] *)
Definition arange1 (stop : Z) : list Z :=
  (fun k => Z.of_nat k) <$> seq 1 (Z.to_nat (stop - 1)).

(** The label of every bin, as the three statements on [all_steps] build
    it: the first [steps] entries reversed, the others shifted and
    negated. *)
Definition all_steps (steps : Z) : list Z :=
  let n := Z.to_nat steps in
  let all_steps := arange1 (steps * 2 + 1) in
  let all_steps := reverse (take n all_steps) ++ drop n all_steps in
  take n all_steps ++ ((fun v => - (v - steps))%Z <$> drop n all_steps).

(** The shape of a two-dimensional array: rows, and columns of its first
    row. *)
Definition shape2 {A} (a : array2 A) : nat * nat :=
  (length a, from_option length 0 (head a)).

(** [a == j], elementwise. *)
Definition eq_scalar (a : array2 Z) (j : Z) : array2 bool :=
  fmap (M := list) (fmap (M := list) (fun v => Z.eqb v j)) a.

(** [(f & m).sum()] for boolean arrays of one shape. Arrays of different
    shapes raise; numpy would first stretch axes of length one, a case the
    model does not cover and reports as the same error. *)
Definition and_sum (f m : array2 bool) : result Z :=
  if decide (shape2 f = shape2 m)
  then Ok (Z.of_nat (sum_list ((fun r => count_occ bool_dec r true)
                     <$> zip_with (zip_with andb) f m)))
  else Raise ValueError.

Definition compute_pvg (s : array3 bool) (labels : array3 Z) (steps : Z)
  : result (array2 Z) :=
  if (steps <? 0)%Z then Raise ValueError else
  let n := Z.to_nat steps in
  let pvg := full2 (length s) (n * 2) 0%Z in
  let shape1 := shape2 (default [] (head labels)) in
  let l := full3 (n * 2) shape1.1 shape1.2 false in
  let all_steps := all_steps steps in
  '(pvg, l) ← for_range (length s) (fun frame '(pvg, l) =>
    f ← index s frame;
    l ← for_in (imap pair all_steps) (fun '(i, j) l =>
      lf ← index labels frame;
      Ok (<[i := eq_scalar lf j]> l)) l;
    pvg ← for_range (n * 2) (fun i pvg =>
      li ← index l i;
      c ← and_sum f li;
      Ok (set2 frame i c pvg)) pvg;
    Ok (pvg, l)) (pvg, l);
  Ok pvg.

(** ** The store: arrays as shared objects

    The functions above pass arrays by value. numpy arrays are objects that
    callers and callees share, and indexing with an integer yields a view of
    the same memory. The second model below keeps every array in a store
    and writes each statement of the source as the reads, writes and
    allocations it performs, so that what a call may have changed can be
    stated. *)

Definition loc := positive.

Inductive ndarray : Type :=
  | Float1 (a : list R)
  | Float3 (a : array3 R)
  | Int1 (a : list Z)
  | Int2 (a : array2 Z)
  | Int3 (a : array3 Z)
  | Bool3 (a : array3 bool).

(** A computation on the store; the store is kept when it raises. *)
Definition M (A : Type) : Type := gmap loc ndarray -> result A * gmap loc ndarray.

#[global] Instance M_ret : MRet M := fun A a h => (Ok a, h).

#[global] Instance M_bind : MBind M := fun A B k m h =>
  match m h with
  | (Ok a, h') => k a h'
  | (Raise e, h') => (Raise e, h')
  end.

(** A new array object. *)
Definition alloc (v : ndarray) : M loc := fun h =>
  let l := fresh (dom h) in (Ok l, <[l := v]> h).

(** The array object at [l]; a reference to nothing raises. *)
Definition load (l : loc) : M ndarray := fun h =>
  match h !! l with
  | Some v => (Ok v, h)
  | None => (Raise TypeError, h)
  end.

(** Writing into the array object at [l]. *)
Definition store (l : loc) (v : ndarray) : M unit := fun h =>
  (Ok tt, <[l := v]> h).

Definition lift {A} (r : result A) : M A := fun h => (r, h).

Definition as_float1 (v : ndarray) : result (list R) :=
  match v with Float1 a => Ok a | _ => Raise TypeError end.

Definition as_float3 (v : ndarray) : result (array3 R) :=
  match v with Float3 a => Ok a | _ => Raise TypeError end.

Definition as_int1 (v : ndarray) : result (list Z) :=
  match v with Int1 a => Ok a | _ => Raise TypeError end.

Definition as_int2 (v : ndarray) : result (array2 Z) :=
  match v with Int2 a => Ok a | _ => Raise TypeError end.

Definition as_int3 (v : ndarray) : result (array3 Z) :=
  match v with Int3 a => Ok a | _ => Raise TypeError end.

Definition as_bool3 (v : ndarray) : result (array3 bool) :=
  match v with Bool3 a => Ok a | _ => Raise TypeError end.

(** Reading the array of a given kind at [l]. *)
Definition read {A} (as_kind : ndarray -> result A) (l : loc) : M A :=
  v ← load l; lift (as_kind v).

(** [a[k]] for an array object [a]: a view, read through its base. *)
Definition read_view {A} (as_kind : ndarray -> result (list A))
    (view : loc * nat) : M A :=
  a ← read as_kind view.1; lift (index a view.2).

(** [for x in xs: body(x)] on the store. *)
Fixpoint for_in_h {A} (xs : list A) (body : A -> M unit) : M unit :=
  match xs with
  | [] => mret tt
  | x :: xs' => _ ← body x; for_in_h xs' body
  end.

Definition for_range_h (n : nat) (body : nat -> M unit) : M unit :=
  for_in_h (seq 0 n) body.

Definition _find_orthogonal_points_h (x_low x_high coef intercept : R)
    (steps : Z) : M (loc * loc * R * loc) :=
  let _alpha := atan coef in
  let coef_orth := np_tan (_alpha - PI / 2) in
  xs ← (v ← lift (linspace x_low x_high steps); alloc (Float1 v));
  ys ← (xv ← read as_float1 xs;
        alloc (Float1 ((fun x => coef * x + intercept)%R <$> xv)));
  intercepts_orth ←
    (yv ← read as_float1 ys; xv ← read as_float1 xs;
     alloc (Float1 (zip_with (fun y x => y - coef_orth * x)%R yv xv)));
  mret (xs, ys, coef_orth, intercepts_orth).

Definition _create_maps_h (im_shape : nat * nat) (c : R) (i : loc) : M loc :=
  iv ← read as_float1 i;
  labels ← alloc (Float3 (full3 (length iv) im_shape.1 im_shape.2 0%R));
  _ ← for_range_h (length iv) (fun j =>
    for_range_h im_shape.1 (fun y =>
      for_range_h im_shape.2 (fun x =>
        iv ← read as_float1 i;
        cur ← read as_float3 labels;
        store labels
          (Float3 (set3 j y x
            (float32 (float64 (INR y - float64 (float64 (c * INR x) + iv !!! j))))
            cur)))));
  mret labels.

Definition _find_parts_h (im_shape : nat * nat) (labels_parallel : loc)
    (labels_LR : loc * nat) : M loc :=
  labels ← alloc (Int2 (full2 im_shape.1 im_shape.2 0%Z));
  _ ← for_range_h im_shape.1 (fun i =>
    for_range_h im_shape.2 (fun j =>
      lrv ← read_view as_float3 labels_LR;
      lr ← lift (index2 lrv i j);
      let sign := if Rge_dec lr 0 then 1%Z else (-1)%Z in
      lp ← read as_float3 labels_parallel;
      col ← lift (column lp i j);
      closest_to ← lift (argmin (sqrt_sq col));
      cur ← read as_int2 labels;
      store labels
        (Int2 (set2 i j (int8 (sign * (Z.of_nat closest_to + 1))) cur))));
  mret labels.

Definition get_labels_h (x_low x_high coef intercept : R)
    (image_shape : nat * nat) (steps : Z) : M loc :=
  '(xs, ys, coef_orth, intercepts_orth) ←
    _find_orthogonal_points_h x_low x_high coef intercept steps;
  labels_parallel ← _create_maps_h image_shape coef_orth intercepts_orth;
  maps_LR ← (i ← alloc (Float1 [intercept]); _create_maps_h image_shape coef i);
  _ ← read_view as_float3 (maps_LR, 0);
  _find_parts_h image_shape labels_parallel (maps_LR, 0).

Definition compute_pvg_h (s labels : loc) (steps : Z) : M loc :=
  sv ← read as_bool3 s;
  if (steps <? 0)%Z then lift (Raise ValueError) else
  let n := Z.to_nat steps in
  pvg ← alloc (Int2 (full2 (length sv) (n * 2) 0%Z));
  lv ← read as_int3 labels;
  let shape1 := shape2 (default [] (head lv)) in
  l ← alloc (Bool3 (full3 (n * 2) shape1.1 shape1.2 false));
  all_steps ← alloc (Int1 (arange1 (steps * 2 + 1)));
  _ ← (a ← read as_int1 all_steps;
       store all_steps (Int1 (reverse (take n a) ++ drop n a)));
  _ ← (a ← read as_int1 all_steps;
       store all_steps
         (Int1 (take n a ++ ((fun v => - (v - steps))%Z <$> drop n a))));
  _ ← for_range_h (length sv) (fun frame =>
    _ ← read_view as_bool3 (s, frame);
    a ← read as_int1 all_steps;
    _ ← for_in_h (imap pair a) (fun '(i, j) =>
      lf ← read_view as_int3 (labels, frame);
      cur ← read as_bool3 l;
      store l (Bool3 (<[i := eq_scalar lf j]> cur)));
    for_range_h (n * 2) (fun i =>
      f ← read_view as_bool3 (s, frame);
      li ← read_view as_bool3 (l, i);
      c ← lift (and_sum f li);
      cur ← read as_int2 pvg;
      store pvg (Int2 (set2 frame i c cur))));
  mret pvg.

(** ** Notions used in the statements *)

(** Lexicographic order on cell indices: the cells a loop nest over
    [(j, y, x)] has already written when it reaches [(j, y, x)]. *)
Definition before3 (j' y' x' j y x : nat) : Prop :=
  j' < j ∨ (j' = j ∧ (y' < y ∨ (y' = y ∧ x' < x))).

(** [c] is the first index of a minimum of [l]. *)
Definition is_argmin (l : list R) (c : nat) : Prop :=
  ∃ m, l !! c = Some m ∧
    ∀ k v, l !! k = Some v -> (m <= v)%R ∧ (k < c -> (m < v)%R).

(** The side of the main axis: [sign = -1; if v >= 0: sign = 1]. *)
Definition sign_of (v : R) : Z := if Rge_dec v 0 then 1%Z else (-1)%Z.

(** What one iteration of the loop nest of [_find_parts] stores at pixel
    [(i, j)]. *)
Definition pixel_label (labels_parallel : array3 R) (labels_LR : array2 R)
    (i j : nat) : result Z :=
  lr ← index2 labels_LR i j;
  col ← column labels_parallel i j;
  closest_to ← argmin (sqrt_sq col);
  Ok (int8 (sign_of lr * (Z.of_nat closest_to + 1))).

(** [c] is the index [k] minimising [|maps[k, i, j]|], the smallest such
    index in case of ties. *)
Definition closest (maps : array3 R) (i j c : nat) : Prop :=
  ∃ m, get3 maps c i j = Some m ∧
    ∀ k v, get3 maps k i j = Some v ->
      (Rabs m <= Rabs v)%R ∧ (k < c -> (Rabs m < Rabs v)%R).

(** The [k]-th of [n] evenly spaced abscissae between [x_low] and
    [x_high]. *)
Definition sample_x (x_low x_high : R) (n k : nat) : R :=
  (x_low + INR k * ((x_high - x_low) / INR (n - 1)))%R.

(** The value [_create_maps] stores at pixel [(y, x)] of the map of the
    line of slope [c] and intercept [b]. *)
Definition map_cell (c b : R) (y x : nat) : R :=
  float32 (float64 (INR y - float64 (float64 (c * INR x) + b))).

(** The value at pixel [(i, j)] of the distance map of the [k]-th of [n]
    orthogonal lines of the axis [(x_low, x_high, coef, intercept)]. *)
Definition orth_distance (x_low x_high coef intercept : R) (n k i j : nat)
  : R :=
  let coef_orth := np_tan (atan coef - PI / 2) in
  let x := sample_x x_low x_high n k in
  let y := (coef * x + intercept)%R in
  map_cell coef_orth (y - coef_orth * x) i j.

(** The label [compute_pvg] looks for in bin [b]: [steps, ..., 1] for the
    first [steps] bins, then [-1, ..., -steps]. *)
Definition label_of_bin (steps : Z) (b : nat) : Z :=
  if (Z.of_nat b <? steps)%Z
  then (steps - Z.of_nat b)%Z
  else (- (Z.of_nat b - steps + 1))%Z.

(** The number of pixels [(y, x)] of an [h] by [w] grid that satisfy [P]. *)
Definition count_pixels (h w : nat) (P : nat -> nat -> bool) : Z :=
  Z.of_nat (sum_list
    ((fun y => length (filter (fun x => P y x) (seq 0 w))) <$> seq 0 h)).

(** Pixel [(y, x)] is segmented in [f] and carries label [j] in [lab]. *)
Definition hit (f : array2 bool) (lab : array2 Z) (j : Z) (y x : nat) : bool :=
  bool_decide (get2 f y x = Some true ∧ get2 lab y x = Some j).

(** The number of true pixels of a mask. *)
Definition popcount (h w : nat) (f : array2 bool) : Z :=
  count_pixels h w (fun y x => bool_decide (get2 f y x = Some true)).

(** The label of a pixel as the loop body computes it, before the store,
    and as the [np.int8] array keeps it. *)
Definition exact_label (v : R) (c : nat) : Z :=
  (sign_of v * (Z.of_nat c + 1))%Z.

Definition stored_label (v : R) (c : nat) : Z := int8 (exact_label v c).



(** The sum of a row of the PVG matrix. *)
Definition sum_Z (l : list Z) : Z := foldr Z.add 0%Z l.

(** [h'] holds at every location of [D] what [h] holds there. *)
Definition keeps (D : gset loc) (h h' : gmap loc ndarray) : Prop :=
  ∀ l, l ∈ D -> h' !! l = h !! l.

(** Run from a store that has the objects of [D], [m] leaves them as they
    are, whether it returns or raises, and a value it returns satisfies
    [Q]. *)
Definition safe {A} (D : gset loc) (m : M A) (Q : A -> Prop) : Prop :=
  ∀ h, D ⊆ dom h ->
    keeps D h (m h).2 ∧ ∀ a, (m h).1 = Ok a -> Q a.

(** The outcome [x] of a run on the store agrees with the outcome [r] of the
    computation on values: when [r] is a value [b], [x] returns and leaves
    the store that [out b] gives; when [r] raises, [x] raises the same. *)
Definition refines {A B} (r : result B) (out : B -> A * gmap loc ndarray)
    (x : result A * gmap loc ndarray) : Prop :=
  match r with
  | Ok b => x = (Ok (out b).1, (out b).2)
  | Raise e => x.1 = Raise e
  end.

(** A label that some bin of [compute_pvg] carries. *)
Definition in_bins (steps : Z) (v : Z) : bool :=
  ((1 <=? Z.abs v) && (Z.abs v <=? steps))%Z.

(** Pixel [(y, x)] is segmented in [f] and its label in [lab] is the label
    of some bin. *)
Definition hit_any (f : array2 bool) (lab : array2 Z) (steps : Z)
    (y x : nat) : bool :=
  bool_decide (get2 f y x = Some true) &&
  from_option (in_bins steps) false (get2 lab y x).

(** * Audio synchronisation ([openhsv/analysis/audio.py]) *)

(** ** numpy and Python operations *)

(** [for i in range(start, stop): body(i)], for a body that cannot raise. *)
Definition loop_from {St} (start stop : nat) (body : nat -> St -> St)
    (st : St) : St :=
  foldl (fun st k => body k st) st (seq start (stop - start)).

(** [x[lo:hi]] for indices [lo] and [hi] that are not negative. *)
Definition slice {A} (x : list A) (lo hi : nat) : list A :=
  drop lo (take hi x).

(** [a[i]] for a Python integer [i]: a negative index counts from the end. *)
Definition py_index {A} (a : list A) (i : Z) : result A :=
  let n := Z.of_nat (length a) in
  if (0 <=? i)%Z then index a (Z.to_nat i)
  else if (- n <=? i)%Z then index a (Z.to_nat (n + i))
  else Raise IndexError.

(** [a[start:]] for a Python integer [start]: a negative [start] counts
    from the end, and the bound is clipped to the array. *)
Definition py_slice_from {A} (a : list A) (start : Z) : list A :=
  let n := Z.of_nat (length a) in
  let start :=
    if (start <? 0)%Z then Z.max (start + n) 0 else Z.min start n in
  drop (Z.to_nat start) a.

Definition sum_R (l : list R) : R := foldr Rplus 0%R l.

Definition np_mean (l : list R) : R := (sum_R l / INR (length l))%R.

(** [np.std(a)]: the square root of the mean of the squared deviations
    from the mean. The standard deviation of an empty slice is NaN and
    outside the model. *)
Definition np_std (l : list R) : R :=
  let m := np_mean l in
  sqrt (np_mean ((fun v => (v - m) ^ 2)%R <$> l)).

(** [a.min()] and [a.max()]; an empty array raises. *)
Definition np_min (l : list R) : result R :=
  match l with
  | [] => Raise ValueError
  | v :: l' => Ok (foldl Rmin v l')
  end.

Definition np_max (l : list R) : result R :=
  match l with
  | [] => Raise ValueError
  | v :: l' => Ok (foldl Rmax v l')
  end.

(** ** [_rolling_std_numba] *)

(** [window] is a count of samples, at least 1. Every index the loop
    writes, [i - window // 2] for [window <= i < len(x)], is inside [std].
    numba compiles the function once per element type of [x], and
    [np.zeros_like(x)] has that type. This is the function for a float
    array. *)
Definition _rolling_std_numba (x : list R) (window : nat) : list R :=
  let std := replicate (length x) 0%R in
  loop_from window (length x) (fun i std =>
    <[(i - window / 2)%nat := np_std (slice x (i - window) i)]> std) std.


(** ** [_findTriggerEnd] and [sync] *)

Section audio.

(** [scipy.stats.mstats.zscore(a)] and [scipy.signal.find_peaks(x,
    height=..., prominence=...)[0]], the array of the indices of the peaks.
    Both belong to scipy and are taken as they come. *)
Variable zscore : list R -> list R.
Variable find_peaks : list R -> option R -> option R -> list nat.

(** The result is the pair [(peaks[0], std)], or [None] where the code
    returns [False]. With [zscoring] off and a constant [std] the division
    is by zero; its NaN cells are outside the model. *)
Definition _findTriggerEnd (reference_signal : list R) (window : nat)
    (prominence : R) (zscoring : bool) : result (option (nat * list R)) :=
  let std := _rolling_std_numba reference_signal window in
  std ← (if zscoring then Ok (zscore std)
         else
           lo ← np_min std;
           hi ← np_max std;
           Ok ((fun v => (v - lo) / (hi - lo))%R <$> std));
  let peaks := find_peaks std None (Some prominence) in
  match peaks with
  | p :: _ => Ok (Some (p, std))
  | [] => Ok None
  end.

(** [sync] with [debug=False]; the debug branches only draw. Unpacking the
    [False] of [_findTriggerEnd] into [trigger_end, std] raises
    [TypeError]. *)
Definition sync (reference_signal audio_signal : list R)
    (start_frame end_frame total_frames : Z) : result (list R) :=
  found ← _findTriggerEnd reference_signal 101 1 true;
  '(trigger_end, std) ←
    match found with Some p => Ok p | None => Raise TypeError end;
  let cropped_reference := slice reference_signal 0 trigger_end in
  let cropped_audio := slice audio_signal 0 trigger_end in
  let z := Ropp <$> zscore cropped_reference in
  let frame_idx := find_peaks z (Some 1.5%R) None in
  let recorded_frames := py_slice_from frame_idx (- total_frames) in
  start_frame_idx ← py_index recorded_frames (start_frame - 1);
  end_frame_idx ← py_index recorded_frames (end_frame - 1);
  Ok (slice cropped_audio start_frame_idx end_frame_idx).

End audio.

(** Stand-ins for the two scipy functions in the examples: a z-score that
    changes nothing, and a peak finder that reports index 4 when asked for
    a prominence and the indices 0 to 3 when asked for a height. *)
Definition example_zscore (x : list R) : list R := x.

Definition example_find_peaks (x : list R) (height prominence : option R)
    : list nat :=
  match prominence with
  | Some _ => [4]
  | None => [0; 1; 2; 3]
  end.

(** * Properties *)

(** ** The error monad and the loops *)

Lemma loop_range_S {St} (n : nat) (body : nat -> St -> St) (st : St) :
  loop_range (S n) body st = body n (loop_range n body st).
Proof. unfold loop_range. by rewrite seq_S, foldl_snoc. Qed.

(** Invariant rule for a loop over [range(n)]. *)
Lemma loop_range_inv {St} (P : nat -> St -> Prop) n (body : nat -> St -> St) st :
  P 0 st ->
  (forall k st, k < n -> P k st -> P (S k) (body k st)) ->
  P n (loop_range n body st).
Proof.
  intros H0 Hstep. induction n as [|n IH]; [done|].
  rewrite loop_range_S. apply Hstep; [lia|]. apply IH. intros. apply Hstep; [lia|done].
Qed.

Lemma for_in_cons {A St} (x : A) xs (body : A -> St -> result St) st :
  for_in (x :: xs) body st = st' ← body x st; for_in xs body st'.
Proof. done. Qed.

Lemma for_in_app {A St} (xs ys : list A) (body : A -> St -> result St) st :
  for_in (xs ++ ys) body st = st' ← for_in xs body st; for_in ys body st'.
Proof.
  revert st. induction xs as [|x xs IH]; intros st; simpl; [done|].
  destruct (body x st); simpl; [apply IH|done].
Qed.

Lemma for_range_S {St} n (body : nat -> St -> result St) st :
  for_range (S n) body st = st' ← for_range n body st; body n st'.
Proof.
  unfold for_range. rewrite seq_S, for_in_app. simpl.
  destruct (for_in (seq 0 n) body st); simpl; [|done].
  by destruct (body n a).
Qed.

(** Invariant rule for a loop whose body may raise: when every iteration
    returns and re-establishes the invariant, so does the loop. *)
Lemma for_range_inv {St} (P : nat -> St -> Prop) n (body : nat -> St -> result St) st :
  P 0 st ->
  (forall k st, k < n -> P k st -> exists st', body k st = Ok st' /\ P (S k) st') ->
  exists st', for_range n body st = Ok st' /\ P n st'.
Proof.
  intros H0 Hstep. induction n as [|n IH]; [by exists st|].
  rewrite for_range_S.
  destruct IH as (st1 & -> & H1); [intros; apply Hstep; [lia|done]|].
  simpl. apply Hstep; [lia|done].
Qed.

(** ** Floating-point formats *)

Lemma Znearest_even_IZR z : Znearest_even (IZR z) = z.
Proof.
  unfold Znearest_even. rewrite ZfloorZ.
  destruct (Rlt_dec (IZR z - IZR z) (1 / 2)) as [|Hn]; [done|].
  exfalso. apply Hn. lra.
Qed.

Lemma ln_2_pos : (0 < ln 2)%R.
Proof. rewrite <- ln_1. apply ln_increasing; lra. Qed.

Lemma powerRZ_2_pos e : (0 < powerRZ 2 e)%R.
Proof. apply powerRZ_lt. lra. Qed.

Lemma ln_powerRZ_2 e : ln (powerRZ 2 e) = (IZR e * ln 2)%R.
Proof.
  rewrite powerRZ_Rpower by lra. unfold Rpower. by rewrite ln_exp.
Qed.

Lemma mag_unique x m :
  (powerRZ 2 (m - 1) <= Rabs x < powerRZ 2 m)%R -> mag x = m.
Proof.
  intros [Hlo Hhi]. unfold mag.
  pose proof (powerRZ_2_pos (m - 1)) as Hpos.
  pose proof ln_2_pos as Hln2.
  assert (IZR (m - 1) * ln 2 <= ln (Rabs x))%R as H1.
  { rewrite <- ln_powerRZ_2.
    destruct Hlo as [Hlt|Heq]; [left; apply ln_increasing; lra|right; by rewrite Heq]. }
  assert (ln (Rabs x) < IZR m * ln 2)%R as H2.
  { rewrite <- ln_powerRZ_2. apply ln_increasing; lra. }
  rewrite (Zfloor_eq (m - 1)); [lia|].
  rewrite minus_IZR in *. split.
  - apply (Rmult_le_reg_r (ln 2)); [done|]. field_simplify; lra.
  - apply (Rmult_lt_reg_r (ln 2)); [done|]. field_simplify; lra.
Qed.

Lemma powerRZ_2_nonneg_IZR n : (0 <= n)%Z -> powerRZ 2 n = IZR (2 ^ n).
Proof.
  intros Hn. rewrite <- (Z2Nat.id n) by done.
  rewrite <- pow_powerRZ. by rewrite pow_IZR.
Qed.

(** A number with at most [prec] digits above the smallest exponent is
    kept as it is. *)
Lemma round_float_exact prec emin z k :
  (0 < prec)%Z -> (Z.abs z < 2 ^ prec)%Z -> (emin <= k)%Z ->
  round_float prec emin (IZR z * powerRZ 2 k) = (IZR z * powerRZ 2 k)%R.
Proof.
  intros Hprec Hz Hk. unfold round_float.
  destruct (decide (z = 0%Z)) as [->|Hz0].
  { rewrite !Rmult_0_l. change 0%R with (IZR 0). rewrite Znearest_even_IZR. lra. }
  set (L := Z.log2 (Z.abs z)).
  assert (0 <= L)%Z as HL by apply Z.log2_nonneg.
  destruct (Z.log2_spec (Z.abs z)) as [Hlo Hhi]; [lia|]. fold L in Hlo, Hhi.
  assert (L < prec)%Z as HLp.
  { apply (Z.pow_lt_mono_r_iff 2); lia. }
  assert (mag (IZR z * powerRZ 2 k) = L + 1 + k)%Z as ->.
  { apply mag_unique. rewrite Rabs_mult, (Rabs_pos_eq (powerRZ 2 k))
      by (left; apply powerRZ_2_pos).
    rewrite <- abs_IZR.
    replace (L + 1 + k - 1)%Z with (L + k)%Z by lia.
    rewrite (powerRZ_add 2 L k), (powerRZ_add 2 (L + 1) k) by lra.
    rewrite (powerRZ_2_nonneg_IZR L) by done.
    rewrite (powerRZ_2_nonneg_IZR (L + 1)) by lia.
    pose proof (powerRZ_2_pos k). split.
    - apply Rmult_le_compat_r; [lra|]. by apply IZR_le.
    - apply Rmult_lt_compat_r; [lra|]. apply IZR_lt.
      replace (L + 1)%Z with (Z.succ L) by lia. done. }
  set (e := Z.max (L + 1 + k - prec) emin).
  assert (e <= k)%Z as He by lia.
  assert (IZR z * powerRZ 2 k * powerRZ 2 (- e) = IZR (z * 2 ^ (k - e)))%R as ->.
  { rewrite Rmult_assoc, <- powerRZ_add by lra.
    replace (k + - e)%Z with (k - e)%Z by lia.
    rewrite powerRZ_2_nonneg_IZR by lia. by rewrite mult_IZR. }
  rewrite Znearest_even_IZR, mult_IZR, <- powerRZ_2_nonneg_IZR by lia.
  rewrite Rmult_assoc, <- powerRZ_add by lra. f_equal. f_equal. lia.
Qed.

Lemma round_float_IZR prec emin z :
  (0 < prec)%Z -> (emin <= 0)%Z -> (Z.abs z < 2 ^ prec)%Z ->
  round_float prec emin (IZR z) = IZR z.
Proof.
  intros Hp He Hz. pose proof (round_float_exact prec emin z 0 Hp Hz He) as H.
  simpl in H. by rewrite Rmult_1_r in H.
Qed.

Lemma float64_IZR z : (Z.abs z < 2 ^ 53)%Z -> float64 (IZR z) = IZR z.
Proof. intros H. by apply round_float_IZR. Qed.

Lemma float32_IZR z : (Z.abs z < 2 ^ 24)%Z -> float32 (IZR z) = IZR z.
Proof. intros H. by apply round_float_IZR. Qed.

(** On integers that fit the formats no operation of [_create_maps]
    rounds. *)
Lemma map_cell_int (cz bz : Z) (y x : nat) :
  (Z.abs (cz * Z.of_nat x) < 2 ^ 53)%Z ->
  (Z.abs (cz * Z.of_nat x + bz) < 2 ^ 53)%Z ->
  (Z.abs (Z.of_nat y - (cz * Z.of_nat x + bz)) < 2 ^ 24)%Z ->
  map_cell (IZR cz) (IZR bz) y x = (INR y - (IZR cz * INR x + IZR bz))%R.
Proof.
  intros H1 H2 H3. unfold map_cell. rewrite !INR_IZR_INZ.
  rewrite <- mult_IZR, float64_IZR by done.
  rewrite <- plus_IZR, float64_IZR by done.
  rewrite <- minus_IZR, float64_IZR by lia.
  by rewrite float32_IZR.
Qed.

(** 2 - 2^-30 is a double, and the nearest float32 is 2. *)
Lemma float64_near_2 : float64 (2 - / 2 ^ 30) = (2 - / 2 ^ 30)%R.
Proof.
  replace (2 - / 2 ^ 30)%R with (IZR 2147483647 * powerRZ 2 (-30))%R
    by (simpl; lra).
  by apply round_float_exact.
Qed.

Lemma float32_near_2 : float32 (2 - / 2 ^ 30) = 2%R.
Proof.
  unfold float32, round_float.
  assert (mag (2 - / 2 ^ 30) = 1%Z) as ->.
  { apply mag_unique. rewrite Rabs_pos_eq by lra. simpl. lra. }
  change (Z.max (1 - 24) (-149)) with (-23)%Z.
  assert (Znearest_even ((2 - / 2 ^ 30) * powerRZ 2 (- -23)) = 16777216%Z) as ->.
  { unfold Znearest_even.
    assert (Zfloor ((2 - / 2 ^ 30) * powerRZ 2 (- -23)) = 16777215%Z) as ->
      by (apply Zfloor_eq; simpl; lra).
    destruct (Rlt_dec _ _) as [Hlt|_]; [simpl in Hlt; lra|].
    destruct (Rlt_dec _ _) as [_|Hn]; [done|]. exfalso. apply Hn. simpl. lra. }
  simpl. lra.
Qed.

(** ** Cells of arrays *)

Section cells.
Context {A : Type}.
Implicit Types (a : array2 A) (b : array3 A).

Lemma shaped2_full h w (x : A) : shaped2 h w (full2 h w x).
Proof.
  split; [apply length_replicate|].
  apply Forall_replicate, length_replicate.
Qed.

Lemma shaped3_full n h w (x : A) : shaped3 n h w (full3 n h w x).
Proof.
  split; [apply length_replicate|].
  apply Forall_replicate, shaped2_full.
Qed.

Lemma shaped2_set2 h w i j v a : shaped2 h w a -> shaped2 h w (set2 i j v a).
Proof.
  intros [Hl Hr]. split; [unfold set2; by rewrite length_alter|].
  apply Forall_lookup. intros k row Hk. unfold set2 in Hk.
  rewrite list_lookup_alter in Hk. rewrite Forall_lookup in Hr.
  destruct (decide (i = k)) as [->|].
  - destruct (a !! k) as [row0|] eqn:E; simplify_eq/=.
    rewrite length_insert. eauto.
  - eauto.
Qed.

Lemma shaped3_set3 n h w k i j v b : shaped3 n h w b -> shaped3 n h w (set3 k i j v b).
Proof.
  intros [Hl Hr]. split; [unfold set3; by rewrite length_alter|].
  apply Forall_lookup. intros k' p Hk. unfold set3 in Hk.
  rewrite list_lookup_alter in Hk. rewrite Forall_lookup in Hr.
  destruct (decide (k = k')) as [->|].
  - destruct (b !! k') as [p0|] eqn:E; simplify_eq/=.
    apply shaped2_set2. eauto.
  - eauto.
Qed.

Lemma shaped2_get2 h w a i j : shaped2 h w a -> i < h -> j < w -> is_Some (get2 a i j).
Proof.
  intros [Hl Hr] Hi Hj. unfold get2.
  destruct (lookup_lt_is_Some_2 a i) as [row Hrow]; [lia|].
  rewrite Hrow. simpl. apply lookup_lt_is_Some_2.
  rewrite Forall_lookup in Hr. by rewrite (Hr _ _ Hrow).
Qed.

Lemma shaped3_get3 n h w b k i j :
  shaped3 n h w b -> k < n -> i < h -> j < w -> is_Some (get3 b k i j).
Proof.
  intros [Hl Hr] Hk Hi Hj. unfold get3.
  destruct (lookup_lt_is_Some_2 b k) as [p Hp]; [lia|].
  rewrite Hp. simpl. rewrite Forall_lookup in Hr.
  eapply shaped2_get2; eauto.
Qed.

Lemma get2_set2_eq a i j v : is_Some (get2 a i j) -> get2 (set2 i j v a) i j = Some v.
Proof.
  unfold get2, set2. intros [x Hx]. rewrite list_lookup_alter_eq.
  destruct (a !! i) as [row|]; simplify_eq/=.
  apply list_lookup_insert_eq. by eapply lookup_lt_Some.
Qed.

Lemma get2_set2_ne a i j i' j' v :
  (i, j) ≠ (i', j') -> get2 (set2 i j v a) i' j' = get2 a i' j'.
Proof.
  unfold get2, set2. intros Hne. rewrite list_lookup_alter.
  destruct (decide (i = i')) as [->|]; [|done].
  destruct (a !! i') as [row|]; simpl; [|done].
  apply list_lookup_insert_ne. congruence.
Qed.

Lemma get3_set3_eq b k i j v : is_Some (get3 b k i j) -> get3 (set3 k i j v b) k i j = Some v.
Proof.
  unfold get3, set3. intros [x Hx]. rewrite list_lookup_alter_eq.
  destruct (b !! k) as [p|]; simplify_eq/=.
  apply get2_set2_eq. eauto.
Qed.

Lemma get3_set3_ne b k i j k' i' j' v :
  (k, i, j) ≠ (k', i', j') -> get3 (set3 k i j v b) k' i' j' = get3 b k' i' j'.
Proof.
  unfold get3, set3. intros Hne. rewrite list_lookup_alter.
  destruct (decide (k = k')) as [->|]; [|done].
  destruct (b !! k') as [p|]; simpl; [|done].
  apply get2_set2_ne. congruence.
Qed.
End cells.

(** ** [_create_maps] *)

Section create_maps.
Variables (h w : nat) (c : R) (i : list R).

Let cell (j y x : nat) : R := map_cell c (i !!! j) y x.

Let inv (j y x : nat) (a : array3 R) : Prop :=
  shaped3 (length i) h w a ∧
  ∀ j' y' x', j' < length i -> y' < h -> x' < w ->
    before3 j' y' x' j y x -> get3 a j' y' x' = Some (cell j' y' x').

(** When the loop nest reaches [(j, y, x)], every cell before it holds its
    final value and the array still has its shape. *)
Lemma create_maps_inv : inv (length i) 0 0 (_create_maps (h, w) c i).
Proof.
  unfold _create_maps. simpl.
  apply (loop_range_inv (fun j a => inv j 0 0 a)).
  { split; [apply shaped3_full|]. unfold before3. intros; lia. }
  intros j a Hj Ha.
  assert (inv j h 0 (loop_range h (fun y labels =>
    loop_range w (fun x labels => set3 j y x (cell j y x) labels) labels) a))
    as [Hs Hc].
  { apply (loop_range_inv (fun y a => inv j y 0 a)); [done|].
    clear a Ha. intros y a Hy Ha.
    assert (inv j y w (loop_range w (fun x labels =>
      set3 j y x (cell j y x) labels) a)) as [Hs Hc].
    { apply (loop_range_inv (fun x a => inv j y x a)); [done|].
      clear a Ha. intros x a Hx [Hs Hc]. split; [by apply shaped3_set3|].
      intros j' y' x' Hj' Hy' Hx' Hb.
      destruct (decide ((j, y, x) = (j', y', x'))) as [[= <- <- <-]|Hne].
      - apply get3_set3_eq. eapply shaped3_get3; eauto.
      - rewrite get3_set3_ne by done. apply Hc; try done.
        unfold before3 in *.
        assert (j ≠ j' ∨ y ≠ y' ∨ x ≠ x') by
          (destruct (decide (j = j')), (decide (y = y')), (decide (x = x'));
           subst; auto; congruence).
        lia. }
    split; [done|]. intros j' y' x' ? ? ? Hb. apply Hc; try done.
    unfold before3 in *. lia. }
  split; [done|]. intros j' y' x' ? ? ? Hb. apply Hc; try done.
  unfold before3 in *. lia.
Qed.
End create_maps.

Lemma create_maps_shape h w c i : shaped3 (length i) h w (_create_maps (h, w) c i).
Proof. apply create_maps_inv. Qed.

Lemma create_maps_cell h w c (i : list R) k y x ik :
  i !! k = Some ik -> y < h -> x < w ->
  get3 (_create_maps (h, w) c i) k y x = Some (map_cell c ik y x).
Proof.
  intros Hk Hy Hx. pose proof (lookup_lt_Some _ _ _ Hk).
  destruct (create_maps_inv h w c i) as [_ Hc].
  rewrite (Hc k y x) by (unfold before3; auto with lia).
  by rewrite (list_lookup_total_correct _ _ _ Hk).
Qed.

(** C6, as the code has it. [_create_maps] returns one plane per
    intercept. Cell [(k, y, x)] holds the vertical distance
    [y - (c * x + i[k])] as the code computes and stores it: in float64,
    with one rounding per operation, and then rounded to float32 by the
    store into the [np.float32] array. Where nothing rounds, as for an
    integer slope, integer intercepts and values below 2^24, the cell is
    the distance itself. *)
Theorem C6_create_maps_cells (h w : nat) (c : R) (i : list R) :
  shaped3 (length i) h w (_create_maps (h, w) c i) ∧
  (∀ k y x ik, i !! k = Some ik -> y < h -> x < w ->
     get3 (_create_maps (h, w) c i) k y x
       = Some (float32 (float64 (INR y - float64 (float64 (c * INR x) + ik))))) ∧
  (∀ k y x (cz bz : Z), c = IZR cz -> i !! k = Some (IZR bz) -> y < h -> x < w ->
     (Z.abs (cz * Z.of_nat x) < 2 ^ 24)%Z ->
     (Z.abs (cz * Z.of_nat x + bz) < 2 ^ 24)%Z ->
     (Z.abs (Z.of_nat y - (cz * Z.of_nat x + bz)) < 2 ^ 24)%Z ->
     get3 (_create_maps (h, w) c i) k y x
       = Some (INR y - (c * INR x + IZR bz))%R).
Proof.
  split; [apply create_maps_shape|]. split.
  - intros. by apply create_maps_cell.
  - intros k y x cz bz -> Hk Hy Hx H1 H2 H3.
    rewrite (create_maps_cell _ _ _ _ _ _ _ _ Hk Hy Hx).
    f_equal. apply map_cell_int; lia.
Qed.

Lemma C6_create_maps_cells_witness :
  [3%R] !! 0 = Some 3%R ∧ 1 < 2 ∧
  get3 (_create_maps (2, 2) 1 [3%R]) 0 1 1 = Some (INR 1 - (1 * INR 1 + 3))%R.
Proof.
  split; [reflexivity|]. split; [lia|].
  apply (proj2 (proj2 (C6_create_maps_cells 2 2 1 [3%R])) 0 1 1 1%Z 3%Z);
    [reflexivity|reflexivity|lia|lia|simpl; lia..].
Defined.

(** C6 as stated fails: the map of the line [y = 2^-30] keeps 2 at pixel
    (2, 0), where the distance is 2 - 2^-30; the difference is lost in the
    float32 store. *)
Lemma C6_counterexample :
  get3 (_create_maps (3, 1) 0 [(/ 2 ^ 30)%R]) 0 2 0 = Some 2%R ∧
  (INR 2 - (0 * INR 0 + / 2 ^ 30))%R ≠ 2%R.
Proof.
  split; [|simpl; lra].
  rewrite (create_maps_cell 3 1 0 [(/ 2 ^ 30)%R] 0 2 0 (/ 2 ^ 30)%R)
    by (reflexivity || lia).
  f_equal. unfold map_cell.
  replace (0 * INR 0)%R with (IZR 0) by (simpl; lra).
  rewrite float64_IZR by (simpl; lia).
  replace (0 + / 2 ^ 30)%R with (IZR 1 * powerRZ 2 (-30))%R by (simpl; lra).
  unfold float64 at 2. rewrite round_float_exact by (simpl; lia).
  replace (INR 2 - 1 * powerRZ 2 (-30))%R with (2 - / 2 ^ 30)%R by (simpl; lra).
  rewrite float64_near_2. apply float32_near_2.
Qed.

(** ** [argmin] *)

(** The running minimum of [argmin_from] is the first minimum of the prefix
    read so far. *)
Lemma argmin_from_is_argmin (pre l : list R) (mv : R) (mi : nat) :
  pre !! mi = Some mv ->
  (∀ k v, pre !! k = Some v -> (mv <= v)%R ∧ (k < mi -> (mv < v)%R)) ->
  is_argmin (pre ++ l) (argmin_from l (length pre) mv mi).
Proof.
  revert pre mv mi. induction l as [|v l IH]; intros pre mv mi Hmi Hmin; simpl.
  - rewrite app_nil_r. by exists mv.
  - pose proof (lookup_lt_Some _ _ _ Hmi) as Hlt.
    replace (pre ++ v :: l) with ((pre ++ [v]) ++ l) by by rewrite <- app_assoc.
    replace (S (length pre)) with (length (pre ++ [v])) by (rewrite length_app; simpl; lia).
    destruct (Rlt_dec v mv) as [Hv|Hv]; apply IH.
    + rewrite lookup_app_r by lia. by rewrite Nat.sub_diag.
    + intros k x Hk. destruct (decide (k < length pre)) as [Hk'|Hk'].
      * rewrite lookup_app_l in Hk by done. destruct (Hmin _ _ Hk). split; [lra|intros; lra].
      * rewrite lookup_app_r in Hk by lia.
        destruct (k - length pre) as [|?] eqn:E; simplify_eq/=. split; [lra|lia].
    + by rewrite lookup_app_l.
    + intros k x Hk. destruct (decide (k < length pre)) as [Hk'|Hk'].
      * rewrite lookup_app_l in Hk by done. by apply Hmin.
      * rewrite lookup_app_r in Hk by lia.
        destruct (k - length pre) as [|?] eqn:E; simplify_eq/=. split; [lra|lia].
Qed.

Lemma is_argmin_unique l c c' : is_argmin l c -> is_argmin l c' -> c = c'.
Proof.
  intros (m & Hm & Hc) (m' & Hm' & Hc').
  destruct (Hc _ _ Hm') as [? ?], (Hc' _ _ Hm) as [? ?].
  destruct (Nat.lt_trichotomy c c') as [?|[?|?]]; [|done|].
  - assert (m' < m)%R by auto. lra.
  - assert (m < m')%R by auto. lra.
Qed.

Lemma argmin_nil : argmin [] = Raise ValueError.
Proof. done. Qed.

Lemma argmin_is_argmin l : l ≠ [] -> ∃ c, argmin l = Ok c ∧ is_argmin l c.
Proof.
  destruct l as [|v0 l]; [done|]. intros _. eexists. split; [done|].
  simpl. destruct (Rlt_dec v0 v0) as [?|_]; [lra|].
  apply (argmin_from_is_argmin [v0] l v0 0); [done|].
  intros [|[|?]] v ?; simplify_eq/=. split; [lra|lia].
Qed.

Lemma argmin_Ok l c : argmin l = Ok c ↔ is_argmin l c.
Proof.
  split.
  - intros H. destruct l as [|v0 l]; [done|].
    destruct (argmin_is_argmin (v0 :: l)) as (c' & Hc' & ?); [done|]. congruence.
  - intros H. destruct l as [|v0 l].
    { destruct H as (? & ? & _). done. }
    destruct (argmin_is_argmin (v0 :: l)) as (c' & Hc' & ?); [done|].
    by rewrite (is_argmin_unique _ _ _ H H0).
Qed.

Lemma is_argmin_lt l c : is_argmin l c -> c < length l.
Proof. intros (m & Hm & _). by eapply lookup_lt_Some. Qed.

Lemma sqrt_sq_abs col : sqrt_sq col = Rabs <$> col.
Proof.
  unfold sqrt_sq. apply list_fmap_ext. intros _ v _.
  by rewrite <- Rsqr_pow2, sqrt_Rsqr_abs.
Qed.

(** ** [_find_parts] *)

Lemma index_Ok {A} (a : list A) i x : a !! i = Some x -> index a i = Ok x.
Proof. unfold index. by intros ->. Qed.

Lemma index_lookup {A} (a : list A) i x : index a i = Ok x -> a !! i = Some x.
Proof. unfold index. destruct (a !! i); by intros [= ->]. Qed.

Lemma index2_get2 {A} (a : array2 A) i j x : get2 a i j = Some x -> index2 a i j = Ok x.
Proof.
  unfold get2, index2, index. destruct (a !! i) as [row|]; simpl; [|done].
  by intros ->.
Qed.

Lemma column_get3 (maps : array3 R) n h w i j :
  shaped3 n h w maps -> i < h -> j < w ->
  ∃ col, column maps i j = Ok col ∧ length col = n ∧
         ∀ k, col !! k = get3 maps k i j.
Proof.
  intros [<- Hs] Hi Hj. unfold column.
  induction maps as [|p maps IH]; simpl.
  { exists []. split; [done|]. split; [done|]. by intros []. }
  apply Forall_cons in Hs as [Hp Hs].
  destruct (shaped2_get2 _ _ _ _ _ Hp Hi Hj) as [v Hv].
  destruct (IH Hs) as (col & -> & Hl & Hc). simpl.
  rewrite (index2_get2 _ _ _ _ Hv). simpl.
  exists (v :: col). split; [done|]. split; [simpl; lia|].
  intros [|k]; [unfold get3; simpl; by rewrite Hv|apply Hc].
Qed.

Lemma find_parts_body (lp : array3 R) (lr : array2 R) i j (labels : array2 Z) :
  (lr ← index2 lr i j;
   let sign := if Rge_dec lr 0 then 1%Z else (-1)%Z in
   col ← column lp i j;
   closest_to ← argmin (sqrt_sq col);
   Ok (set2 i j (int8 (sign * (Z.of_nat closest_to + 1))) labels))
  = (v ← pixel_label lp lr i j; Ok (set2 i j v labels)).
Proof.
  unfold pixel_label, sign_of.
  destruct (index2 lr i j); simpl; [|done].
  destruct (column lp i j); simpl; [|done].
  by destruct (argmin _).
Qed.

(** When every pixel gets a label, [_find_parts] returns the map of these
    labels. *)
Lemma find_parts_spec h w (lp : array3 R) (lr : array2 R) (v : nat -> nat -> Z) :
  (∀ i j, i < h -> j < w -> pixel_label lp lr i j = Ok (v i j)) ->
  ∃ labels, _find_parts (h, w) lp lr = Ok labels ∧ shaped2 h w labels ∧
    ∀ i j, i < h -> j < w -> get2 labels i j = Some (v i j).
Proof.
  intros Hv. unfold _find_parts. simpl.
  pose (inv := fun (i j : nat) (a : array2 Z) =>
    shaped2 h w a ∧ ∀ i' j', i' < h -> j' < w ->
      i' < i ∨ (i' = i ∧ j' < j) -> get2 a i' j' = Some (v i' j')).
  destruct (for_range_inv (fun i a => inv i 0 a) h
    (fun i labels => for_range w (fun j labels =>
       lr0 ← index2 lr i j;
       let sign := if Rge_dec lr0 0 then 1%Z else (-1)%Z in
       col ← column lp i j;
       closest_to ← argmin (sqrt_sq col);
       Ok (set2 i j (int8 (sign * (Z.of_nat closest_to + 1))) labels)) labels)
    (full2 h w 0%Z)) as (labels & Hl & Hs & Hc).
  - split; [apply shaped2_full|]. intros; lia.
  - intros i a Hi Ha.
    destruct (for_range_inv (fun j a => inv i j a) w
      (fun j labels =>
         lr0 ← index2 lr i j;
         let sign := if Rge_dec lr0 0 then 1%Z else (-1)%Z in
         col ← column lp i j;
         closest_to ← argmin (sqrt_sq col);
         Ok (set2 i j (int8 (sign * (Z.of_nat closest_to + 1))) labels)) a)
      as (a' & Ha' & Hs & Hc); [done| |].
    + clear a Ha. intros j a Hj [Hs Hc].
      rewrite find_parts_body, Hv by done. simpl. eexists; split; [done|].
      split; [by apply shaped2_set2|].
      intros i' j' Hi' Hj' Hb.
      destruct (decide ((i, j) = (i', j'))) as [[= <- <-]|Hne].
      * apply get2_set2_eq. eapply shaped2_get2; eauto.
      * rewrite get2_set2_ne by done. apply Hc; try done.
        assert (i ≠ i' ∨ j ≠ j') by
          (destruct (decide (i = i')), (decide (j = j')); subst; auto; congruence).
        lia.
    + exists a'. split; [done|]. split; [done|].
      intros i' j' ? ? Hb. apply Hc; try done. lia.
  - exists labels. split; [done|]. split; [done|].
    intros i j ? ?. apply Hc; try done. lia.
Qed.

(** The first pixel that raises ends the call. *)
Lemma find_parts_raise h w (lp : array3 R) (lr : array2 R) e :
  0 < h -> 0 < w -> pixel_label lp lr 0 0 = Raise e ->
  _find_parts (h, w) lp lr = Raise e.
Proof.
  intros Hh Hw He. unfold _find_parts, for_range.
  destruct h as [|h]; [lia|]. destruct w as [|w]; [lia|].
  cbn [fst snd]. rewrite <- !cons_seq, for_in_cons, for_in_cons.
  by rewrite find_parts_body, He.
Qed.

(** On maps of the right shapes, the label of a pixel is made of the side
    of the main axis and the closest orthogonal line. *)
Lemma pixel_label_closest n h w (lp : array3 R) (lr : array2 R) i j :
  shaped3 n h w lp -> shaped2 h w lr -> 0 < n -> i < h -> j < w ->
  ∃ c v, get2 lr i j = Some v ∧ closest lp i j c ∧ c < n ∧
    pixel_label lp lr i j = Ok (int8 (sign_of v * (Z.of_nat c + 1))).
Proof.
  intros Hlp Hlr Hn Hi Hj.
  destruct (shaped2_get2 _ _ _ _ _ Hlr Hi Hj) as [v Hv].
  destruct (column_get3 _ _ _ _ _ _ Hlp Hi Hj) as (col & Hcol & Hlen & Hk).
  destruct (argmin_is_argmin (sqrt_sq col)) as (c & Hc & Hmin).
  { unfold sqrt_sq. destruct col; [simpl in *; lia|done]. }
  exists c, v. split; [done|].
  pose proof (is_argmin_lt _ _ Hmin) as Hlt.
  unfold sqrt_sq in Hlt. rewrite length_fmap in Hlt.
  rewrite sqrt_sq_abs in Hmin. destruct Hmin as (m & Hm & Hall).
  rewrite list_lookup_fmap in Hm.
  destruct (col !! c) as [mc|] eqn:Emc; simplify_eq/=.
  split; [|split; [lia|]].
  - exists mc. split; [by rewrite <- Hk|].
    intros k x Hx. rewrite <- Hk in Hx.
    apply (Hall k (Rabs x)). by rewrite list_lookup_fmap, Hx.
  - unfold pixel_label. rewrite (index2_get2 _ _ _ _ Hv). simpl.
    rewrite Hcol. simpl. by rewrite Hc.
Qed.

(** ** [linspace] and [_find_orthogonal_points] *)

Lemma linspace_neg start stop num : (num < 0)%Z -> linspace start stop num = Raise ValueError.
Proof. intros H. unfold linspace. by rewrite (proj2 (Z.ltb_lt _ _) H). Qed.

(** The samples of [linspace], as the code computes them. *)
Lemma linspace_Ok start stop num :
  (0 <= num)%Z ->
  ∃ xs, linspace start stop num = Ok xs ∧ length xs = Z.to_nat num ∧
    ∀ k, k < Z.to_nat num ->
      xs !! k = Some
        (if decide (1 < Z.to_nat num ∧ k = Z.to_nat num - 1) then stop
         else if decide (1 < Z.to_nat num)
              then (INR k * ((stop - start) / INR (Z.to_nat num - 1)) + start)%R
              else (INR k * (stop - start) + start)%R).
Proof.
  intros Hnum. unfold linspace.
  rewrite (proj2 (Z.ltb_ge _ _) Hnum). set (n := Z.to_nat num).
  eexists. split; [done|]. split.
  - destruct (1 <? n); rewrite ?length_insert; destruct (0 <? n - 1);
      by rewrite !length_fmap, length_seq.
  - intros k Hk. destruct (Nat.ltb_spec 1 n) as [H1|H1].
    + rewrite (proj2 (Nat.ltb_lt 0 (n - 1))) by lia.
      destruct (decide (1 < n ∧ k = n - 1)) as [[_ ->]|Hne].
      * apply list_lookup_insert_eq. rewrite !length_fmap, length_seq. lia.
      * rewrite list_lookup_insert_ne by lia.
        rewrite !list_lookup_fmap, lookup_seq_lt by done. simpl.
        by rewrite decide_True by done.
    + rewrite decide_False by lia. rewrite decide_False by lia.
      destruct (0 <? n - 1) eqn:E; [apply Nat.ltb_lt in E; lia|].
      by rewrite !list_lookup_fmap, lookup_seq_lt by done.
Qed.

Lemma find_orthogonal_points_neg x_low x_high coef intercept steps :
  (steps < 0)%Z ->
  _find_orthogonal_points x_low x_high coef intercept steps = Raise ValueError.
Proof. intros H. unfold _find_orthogonal_points. by rewrite linspace_neg. Qed.

Lemma linspace_sample start stop num k :
  (0 <= num)%Z -> k < Z.to_nat num ->
  ∃ xs, linspace start stop num = Ok xs ∧
        xs !! k = Some (sample_x start stop (Z.to_nat num) k).
Proof.
  intros Hnum Hk. destruct (linspace_Ok start stop num Hnum) as (xs & Hxs & _ & Hx).
  exists xs. split; [done|]. rewrite (Hx k Hk). f_equal. unfold sample_x.
  set (n := Z.to_nat num) in *.
  destruct (decide (1 < n ∧ k = n - 1)) as [[H1 ->]|Hne].
  - assert (INR (n - 1) ≠ 0)%R by (apply not_0_INR; lia). field. done.
  - destruct (decide (1 < n)); [lra|].
    assert (k = 0) as -> by lia. simpl. lra.
Qed.

Lemma atan_eq_0 c : atan c = 0%R -> c = 0%R.
Proof. intros H. by rewrite <- (tan_atan c), H, tan_0. Qed.

Lemma np_tan_orth coef :
  coef ≠ 0%R -> np_tan (atan coef - PI / 2) = tan (atan coef - PI / 2).
Proof.
  intros Hc. unfold np_tan. destruct (Req_dec_T _ _) as [Heq|]; [|done].
  exfalso. apply Hc, atan_eq_0. lra.
Qed.

Lemma np_tan_pole : np_tan (atan 0 - PI / 2) = (- 16331239353195370)%R.
Proof.
  unfold np_tan. destruct (Req_dec_T _ _) as [|Hne]; [done|].
  exfalso. apply Hne. rewrite atan_0. lra.
Qed.

Lemma find_orthogonal_points_Ok (x_low x_high coef intercept : R) (steps : Z) :
  (0 <= steps)%Z ->
  let n := Z.to_nat steps in
  let coef_orth := np_tan (atan coef - PI / 2) in
  ∃ xs ys intercepts_orth,
    _find_orthogonal_points x_low x_high coef intercept steps
      = Ok (xs, ys, coef_orth, intercepts_orth) ∧
    length xs = n ∧ length ys = n ∧ length intercepts_orth = n ∧
    (1 < n -> xs !! (n - 1) = Some x_high) ∧
    ∀ k, k < n ->
      let x := sample_x x_low x_high n k in
      let y := (coef * x + intercept)%R in
      xs !! k = Some x ∧ ys !! k = Some y ∧
      intercepts_orth !! k = Some (y - coef_orth * x)%R.
Proof.
  intros Hsteps n coef_orth. unfold _find_orthogonal_points.
  destruct (linspace_Ok x_low x_high steps Hsteps) as (xs & Hxs & Hlen & Hx).
  rewrite Hxs. simpl. eexists _, _, _. split; [done|].
  fold n in Hlen, Hx.
  assert (∀ k, k < n -> xs !! k = Some (sample_x x_low x_high n k)) as Hsample.
  { intros k Hk. destruct (linspace_sample x_low x_high steps k Hsteps Hk)
      as (xs' & Hxs' & Hk'). rewrite Hxs in Hxs'. by simplify_eq. }
  repeat split.
  - done.
  - by rewrite length_fmap.
  - rewrite length_zip_with, length_fmap. lia.
  - intros Hn. rewrite Hx by lia. by rewrite decide_True by done.
  - by apply Hsample.
  - by rewrite list_lookup_fmap, Hsample.
  - rewrite lookup_zip_with, list_lookup_fmap, Hsample by done. done.
Qed.

(** C5, as the code has it. [_find_orthogonal_points] returns [steps]
    abscissae [x_low + k * (x_high - x_low) / (steps - 1)], evenly spaced
    from [x_low]; [x_high] is the last of them from two steps on, and with
    one step the single abscissa is [x_low]. It returns the ordinates
    [coef * xs + intercept], one orthogonal slope and the intercepts
    [ys - coef_orth * xs], sample by sample. Over the real numbers the
    slope is [tan (atan coef - PI / 2)] for [coef <> 0]; for [coef = 0]
    the formula has a pole and the slope is the double that [np.tan]
    returns there. Rounding is left aside. *)
Theorem C5_find_orthogonal_points_spec (x_low x_high coef intercept : R) (steps : Z) :
  (0 <= steps)%Z ->
  let n := Z.to_nat steps in
  ∃ xs ys coef_orth intercepts_orth,
    _find_orthogonal_points x_low x_high coef intercept steps
      = Ok (xs, ys, coef_orth, intercepts_orth) ∧
    length xs = n ∧ length ys = n ∧ length intercepts_orth = n ∧
    (0 < n -> xs !! 0 = Some x_low) ∧
    (1 < n -> xs !! (n - 1) = Some x_high) ∧
    (n = 1 -> xs = [x_low]) ∧
    (coef ≠ 0%R -> coef_orth = tan (atan coef - PI / 2)) ∧
    (coef = 0%R -> coef_orth = (- 16331239353195370)%R) ∧
    ∀ k, k < n -> ∃ x y,
      xs !! k = Some x ∧ ys !! k = Some y ∧
      x = (x_low + INR k * ((x_high - x_low) / INR (n - 1)))%R ∧
      y = (coef * x + intercept)%R ∧
      intercepts_orth !! k = Some (y - coef_orth * x)%R.
Proof.
  intros Hsteps n.
  destruct (find_orthogonal_points_Ok x_low x_high coef intercept steps Hsteps)
    as (xs & ys & io & H & Hl1 & Hl2 & Hl3 & Hlast & Hk).
  exists xs, ys, (np_tan (atan coef - PI / 2)), io.
  fold n in Hl1, Hl2, Hl3, Hlast, Hk.
  assert (0 < n -> xs !! 0 = Some x_low) as Hfirst.
  { intros Hn. destruct (Hk 0 Hn) as (-> & _). f_equal.
    unfold sample_x. simpl. lra. }
  repeat (split; [done|]).
  split.
  { intros Hn. destruct xs as [|x0 [|x1 xs]]; simpl in Hl1; try lia.
    specialize (Hfirst ltac:(lia)). by simplify_eq/=. }
  split; [apply np_tan_orth|].
  split; [intros ->; apply np_tan_pole|].
  intros k Hn. destruct (Hk k Hn) as (? & ? & ?). by eexists _, _.
Qed.

Lemma C5_find_orthogonal_points_witness :
  (0 <= 3)%Z ∧
  ∃ xs ys coef_orth intercepts_orth,
    _find_orthogonal_points 0 4 1 2 3
      = Ok (xs, ys, coef_orth, intercepts_orth) ∧
    length xs = 3 ∧ xs !! 2 = Some 4%R.
Proof.
  split; [lia|].
  destruct (C5_find_orthogonal_points_spec 0 4 1 2 3 ltac:(lia))
    as (xs & ys & co & io & H & Hl & _ & _ & _ & Hlast & _).
  exists xs, ys, co, io. split; [exact H|]. split; [exact Hl|].
  apply Hlast. simpl. lia.
Defined.

(** C5 as stated fails: with one step the abscissae are [x_low] alone, and
    [x_high] is not among them. *)
Lemma C5_counterexample :
  ∃ xs ys coef_orth intercepts_orth,
    _find_orthogonal_points 0 4 1 2 1
      = Ok (xs, ys, coef_orth, intercepts_orth) ∧
    xs = [0%R] ∧ 4%R ∉ xs.
Proof.
  destruct (find_orthogonal_points_Ok 0 4 1 2 1 ltac:(lia))
    as (xs & ys & io & H & Hl1 & _ & _ & _ & Hk).
  exists xs, ys, (np_tan (atan 1 - PI / 2)), io. split; [exact H|].
  destruct (Hk 0 ltac:(simpl; lia)) as (Hx & _).
  assert (xs = [0%R]) as ->.
  { destruct xs as [|x0 [|x1 xs]]; simpl in Hl1; try lia.
    simpl in Hx. injection Hx as ->. f_equal. unfold sample_x. simpl. lra. }
  split; [done|]. intros Hin%list_elem_of_singleton. lra.
Qed.

(** ** [get_labels] *)

Lemma get_labels_neg x_low x_high coef intercept shape steps :
  (steps < 0)%Z -> get_labels x_low x_high coef intercept shape steps = Raise ValueError.
Proof. intros H. unfold get_labels. by rewrite find_orthogonal_points_neg. Qed.

Lemma create_maps_single h w c (b : R) :
  ∃ plane, index (_create_maps (h, w) c [b]) 0 = Ok plane ∧ shaped2 h w plane ∧
    ∀ i j, i < h -> j < w -> get2 plane i j = Some (map_cell c b i j).
Proof.
  destruct (create_maps_shape h w c [b]) as [Hl Hf].
  destruct (_create_maps (h, w) c [b]) as [|plane [|]] eqn:E; simplify_eq/=.
  exists plane. split; [done|]. apply Forall_cons in Hf as [Hp _]. split; [done|].
  intros i j Hi Hj.
  pose proof (create_maps_cell h w c [b] 0 i j b eq_refl Hi Hj) as Hc.
  by rewrite E in Hc.
Qed.

Lemma get_labels_zero x_low x_high coef intercept h w :
  0 < h -> 0 < w ->
  get_labels x_low x_high coef intercept (h, w) 0 = Raise ValueError.
Proof.
  intros Hh Hw. unfold get_labels.
  destruct (create_maps_single h w coef intercept) as (plane & -> & Hp & _).
  destruct (shaped2_get2 _ _ _ 0 0 Hp Hh Hw) as [v Hv].
  simpl. apply find_parts_raise; [done..|].
  unfold pixel_label. by rewrite (index2_get2 _ _ _ _ Hv).
Qed.

(** With at least one step [get_labels] returns, and the label of a pixel is
    [int8 (sign * (c + 1))] for the first line [c] of least stored distance,
    the sign being that of the stored cell of the main axis. *)
Lemma get_labels_Ok x_low x_high coef intercept h w steps :
  (0 < steps)%Z ->
  let n := Z.to_nat steps in
  let d := orth_distance x_low x_high coef intercept n in
  ∃ labels, get_labels x_low x_high coef intercept (h, w) steps = Ok labels ∧
    shaped2 h w labels ∧
    ∀ i j, i < h -> j < w -> ∃ c,
      c < n ∧
      (∀ k, k < n -> (Rabs (d c i j) <= Rabs (d k i j))%R ∧
                     (k < c -> (Rabs (d c i j) < Rabs (d k i j))%R)) ∧
      get2 labels i j = Some
        (int8 (sign_of (map_cell coef intercept i j) * (Z.of_nat c + 1))).
Proof.
  intros Hsteps n d. unfold get_labels.
  destruct (find_orthogonal_points_Ok x_low x_high coef intercept steps)
    as (xs & ys & io & -> & _ & _ & Hio & _ & Hk); [lia|].
  fold n in Hio, Hk. simpl.
  destruct (create_maps_single h w coef intercept) as (plane & -> & Hp & Hplane).
  simpl. set (co := np_tan (atan coef - PI / 2)) in *.
  pose proof (create_maps_shape h w co io) as Hshape. rewrite Hio in Hshape.
  assert (∀ k i j, k < n -> i < h -> j < w ->
    get3 (_create_maps (h, w) co io) k i j = Some (d k i j)) as Hd.
  { intros k i j Hkn Hi Hj. destruct (Hk k Hkn) as (_ & _ & Hiok).
    by rewrite (create_maps_cell h w co io k i j _ Hiok). }
  assert (∀ i j, i < h -> j < w -> ∃ c, c < n ∧
    (∀ k, k < n -> (Rabs (d c i j) <= Rabs (d k i j))%R ∧
                   (k < c -> (Rabs (d c i j) < Rabs (d k i j))%R)) ∧
    pixel_label (_create_maps (h, w) co io) plane i j = Ok
      (int8 (sign_of (map_cell coef intercept i j) * (Z.of_nat c + 1))))
    as Hpix.
  { intros i j Hi Hj.
    destruct (pixel_label_closest n h w _ plane i j Hshape Hp) as
      (c & v & Hv & (m & Hm & Hmin) & Hc & Hlab); [lia|done..|].
    exists c. split; [done|]. rewrite Hplane in Hv by done. simplify_eq.
    rewrite Hd in Hm by done. simplify_eq. split; [|done].
    intros k Hkn. apply Hmin. by apply Hd. }
  pose (v := fun i j => default 0%Z
    (match pixel_label (_create_maps (h, w) co io) plane i j with
     | Ok z => Some z | Raise _ => None end)).
  destruct (find_parts_spec h w (_create_maps (h, w) co io) plane v)
    as (labels & -> & Hs & Hl).
  { intros i j Hi Hj. destruct (Hpix i j Hi Hj) as (c & _ & _ & Hc).
    unfold v. by rewrite Hc. }
  exists labels. split; [done|]. split; [done|].
  intros i j Hi Hj. destruct (Hpix i j Hi Hj) as (c & ? & ? & Hc).
  exists c. split; [done|]. split; [done|].
  rewrite Hl by done. unfold v. by rewrite Hc.
Qed.

(** ** [compute_pvg] *)

Lemma for_in_inv {A St} (P : nat -> St -> Prop) (xs : list A)
    (body : A -> St -> result St) st :
  P 0 st ->
  (∀ k x st, xs !! k = Some x -> P k st -> ∃ st', body x st = Ok st' ∧ P (S k) st') ->
  ∃ st', for_in xs body st = Ok st' ∧ P (length xs) st'.
Proof.
  revert P st. induction xs as [|x xs IH]; intros P st H0 Hstep; [by exists st|].
  destruct (Hstep 0 x st eq_refl H0) as (st1 & Hb & H1).
  rewrite for_in_cons, Hb. simpl.
  apply (IH (fun k => P (S k))); [done|].
  intros k y st2 Hk. by apply (Hstep (S k)).
Qed.

Lemma list_eq_seq {A} (l : list A) n (q : nat -> A) :
  length l = n -> (∀ x, x < n -> l !! x = Some (q x)) -> l = q <$> seq 0 n.
Proof.
  intros Hl Hq. apply list_eq. intros i. rewrite list_lookup_fmap.
  destruct (decide (i < n)).
  - by rewrite Hq, lookup_seq_lt.
  - rewrite lookup_seq_ge by lia. apply lookup_ge_None_2. lia.
Qed.

Lemma all_steps_length steps : (0 <= steps)%Z ->
  length (all_steps steps) = Z.to_nat steps * 2.
Proof.
  intros Hs. unfold all_steps, arange1.
  replace (Z.to_nat (steps * 2 + 1 - 1)) with (Z.to_nat steps * 2) by lia.
  rewrite !length_app, !length_fmap, !length_take, !length_drop, !length_app,
    length_reverse, !length_take, !length_drop, !length_fmap, !length_seq. lia.
Qed.

Lemma all_steps_lookup steps b : (0 <= steps)%Z -> b < Z.to_nat steps * 2 ->
  all_steps steps !! b = Some (label_of_bin steps b).
Proof.
  intros Hs Hb. unfold all_steps, arange1, label_of_bin.
  replace (Z.to_nat (steps * 2 + 1 - 1)) with (Z.to_nat steps * 2) by lia.
  remember (Z.to_nat steps) as n eqn:Hn.
  rewrite <- !fmap_take, <- !fmap_drop, take_seq, drop_seq.
  replace (n `min` (n * 2)) with n by lia. replace (n * 2 - n) with n by lia.
  set (A := (fun k : nat => Z.of_nat k) <$> seq 1 n).
  assert (length A = n) as HA by (unfold A; by rewrite length_fmap, length_seq).
  assert (length (reverse A) = n) as Hl by by rewrite length_reverse.
  rewrite take_app_length', drop_app_length' by done.
  destruct (Z.ltb_spec (Z.of_nat b) steps).
  - rewrite lookup_app_l by lia. rewrite reverse_lookup by lia.
    unfold A. rewrite length_fmap, length_seq, list_lookup_fmap, lookup_seq_lt by lia.
    simpl. f_equal. lia.
  - rewrite lookup_app_r by lia. rewrite Hl.
    rewrite !list_lookup_fmap, lookup_seq_lt by lia. simpl. f_equal. lia.
Qed.

Lemma shaped2_shape2 {A} h w (a : array2 A) :
  shaped2 h w a -> shape2 a = (h, if decide (h = 0) then 0 else w).
Proof.
  intros [Hl Hr]. unfold shape2. rewrite Hl. f_equal.
  destruct a as [|r a]; simpl in *; [by subst|].
  subst h. simpl. by apply Forall_cons in Hr as [-> _].
Qed.

Lemma shaped2_eq_scalar h w lab j : shaped2 h w lab -> shaped2 h w (eq_scalar lab j).
Proof.
  intros [Hl Hr]. unfold eq_scalar. split; [by rewrite length_fmap|].
  apply Forall_fmap. eapply Forall_impl; [done|]. simpl.
  intros r <-. by rewrite length_fmap.
Qed.

Lemma get2_eq_scalar lab j y x :
  get2 (eq_scalar lab j) y x = (fun v => Z.eqb v j) <$> get2 lab y x.
Proof.
  unfold get2, eq_scalar. rewrite list_lookup_fmap.
  destruct (lab !! y) as [r|]; simpl; [|done]. by rewrite list_lookup_fmap.
Qed.

Lemma count_occ_fmap_filter {A} (P : A -> bool) (l : list A) :
  count_occ bool_dec (P <$> l) true = length (filter (fun x => P x) l).
Proof.
  induction l as [|x l IH]; [done|]. rewrite fmap_cons, filter_cons.
  destruct (P x) eqn:E; simpl; by rewrite IH.
Qed.

(** [(f & (lab == j)).sum()] counts, by index, the pixels that are
    segmented and labelled [j]. *)
Lemma and_sum_count h w (f : array2 bool) (lab : array2 Z) j :
  shaped2 h w f -> shaped2 h w lab ->
  and_sum f (eq_scalar lab j) = Ok (count_pixels h w (hit f lab j)).
Proof.
  intros Hf Hlab. pose proof (shaped2_eq_scalar h w lab j Hlab) as Hm.
  unfold and_sum.
  rewrite (shaped2_shape2 _ _ _ Hf), (shaped2_shape2 _ _ _ Hm).
  rewrite decide_True by done. unfold count_pixels. do 3 f_equal.
  rewrite (list_eq_seq (zip_with (zip_with andb) f (eq_scalar lab j)) h
    (fun y => (fun x => hit f lab j y x) <$> seq 0 w)).
  - rewrite <- list_fmap_compose. apply list_fmap_ext. intros _ y _. simpl.
    apply count_occ_fmap_filter.
  - destruct Hf as [? _], Hm as [? _]. rewrite length_zip_with. lia.
  - intros y Hy. rewrite lookup_zip_with.
    destruct Hf as [Hfl Hfr], Hm as [Hml Hmr].
    destruct (lookup_lt_is_Some_2 f y) as [fr Hfy]; [lia|].
    destruct (lookup_lt_is_Some_2 (eq_scalar lab j) y) as [mr Hmy]; [lia|].
    rewrite Hfy, Hmy. simpl. f_equal.
    rewrite Forall_lookup in Hfr. rewrite Forall_lookup in Hmr.
    pose proof (Hfr _ _ Hfy) as Hfw. pose proof (Hmr _ _ Hmy) as Hmw.
    apply list_eq_seq; [rewrite length_zip_with; lia|].
    intros x Hx. rewrite lookup_zip_with.
    destruct (lookup_lt_is_Some_2 fr x) as [a Ha]; [lia|].
    destruct (lookup_lt_is_Some_2 mr x) as [b Hb]; [lia|].
    rewrite Ha, Hb. simpl. f_equal. unfold hit.
    assert (get2 f y x = Some a) as Hfa by (unfold get2; by rewrite Hfy).
    assert (get2 (eq_scalar lab j) y x = Some b) as Hmb
      by (unfold get2; by rewrite Hmy).
    rewrite get2_eq_scalar in Hmb. rewrite Hfa.
    destruct (get2 lab y x) as [v|]; simplify_eq/=.
    destruct a, (Z.eqb_spec v j); cbn [andb]; symmetry.
    + apply bool_decide_eq_true. by subst.
    + apply bool_decide_eq_false. intros [_ ?]. congruence.
    + apply bool_decide_eq_false. intros [? _]. congruence.
    + apply bool_decide_eq_false. intros [? _]. congruence.
Qed.

Lemma shaped3_lookup {A} n h w (a : array3 A) k p :
  shaped3 n h w a -> a !! k = Some p -> shaped2 h w p.
Proof. intros [_ Hf] Hk. rewrite Forall_lookup in Hf. eauto. Qed.

Lemma compute_pvg_neg s labels steps :
  (steps < 0)%Z -> compute_pvg s labels steps = Raise ValueError.
Proof. intros H. unfold compute_pvg. by rewrite (proj2 (Z.ltb_lt _ _) H). Qed.

(** On stacks of one shape [compute_pvg] returns the matrix of the counts
    of segmented pixels per frame and bin. *)
Lemma compute_pvg_Ok T h w (s : array3 bool) (labels : array3 Z) steps :
  shaped3 T h w s -> shaped3 T h w labels -> (0 <= steps)%Z ->
  ∃ pvg, compute_pvg s labels steps = Ok pvg ∧
    shaped2 T (Z.to_nat steps * 2) pvg ∧
    ∀ t b f lab, s !! t = Some f -> labels !! t = Some lab ->
      b < Z.to_nat steps * 2 ->
      get2 pvg t b = Some (count_pixels h w (hit f lab (label_of_bin steps b))).
Proof.
  intros Hs Hlabels Hsteps. unfold compute_pvg.
  rewrite (proj2 (Z.ltb_ge _ _) Hsteps).
  remember (Z.to_nat steps) as n eqn:Hn.
  pose proof (all_steps_length steps Hsteps) as Hal. rewrite <- Hn in Hal.
  assert (∀ b, b < n * 2 -> all_steps steps !! b = Some (label_of_bin steps b)) as Hab.
  { intros b Hb. apply all_steps_lookup; [done|]. by rewrite <- Hn. }
  destruct Hs as [HsT Hsf]. pose proof Hlabels as [HlT _].
  pose (cnt := fun (f : array2 bool) (lab : array2 Z) (b : nat) =>
    count_pixels h w (hit f lab (label_of_bin steps b))).
  pose (P := fun (t : nat) (st : array2 Z * array3 bool) =>
    shaped2 T (n * 2) st.1 ∧ length st.2 = n * 2 ∧
    ∀ t' b f lab, t' < t -> s !! t' = Some f -> labels !! t' = Some lab ->
      b < n * 2 -> get2 st.1 t' b = Some (cnt f lab b)).
  match goal with |- context [for_range ?m ?body ?st] =>
    destruct (for_range_inv P m body st) as ([pvg l] & -> & HP) end.
  - split; [rewrite <- HsT; apply shaped2_full|].
    split; [apply length_replicate|]. intros; lia.
  - intros t [pvg l] Ht (Hpvg & Hl & Hdone). simpl in Hpvg, Hl, Hdone.
    destruct (lookup_lt_is_Some_2 s t) as [f Hf]; [lia|].
    destruct (lookup_lt_is_Some_2 labels t) as [lab Hlab]; [lia|].
    assert (shaped2 h w f) as Hfs by (rewrite Forall_lookup in Hsf; eauto).
    pose proof (shaped3_lookup _ _ _ _ _ _ Hlabels Hlab) as Hlabs.
    rewrite (index_Ok _ _ _ Hf). simpl.
    match goal with |- context [for_in ?xs ?body ?st] =>
      destruct (for_in_inv (fun k (l : array3 bool) =>
        length l = n * 2 ∧
        ∀ b, b < k -> l !! b = Some (eq_scalar lab (label_of_bin steps b)))
        xs body st) as (l' & -> & Hl'1 & Hl'2) end.
    { split; [done|]. intros; lia. }
    { intros k [i j] l0 Hk [Hl0 Hprev].
      rewrite list_lookup_imap in Hk.
      destruct (all_steps steps !! k) as [jk|] eqn:Ejk; simplify_eq/=.
      pose proof (lookup_lt_Some _ _ _ Ejk) as Hklt. rewrite Hal in Hklt.
      rewrite Hab in Ejk by done. simplify_eq.
      rewrite (index_Ok _ _ _ Hlab). simpl. eexists. split; [done|].
      split; [by rewrite length_insert|].
      intros b Hb. destruct (decide (b = i)) as [->|Hne].
      - apply list_lookup_insert_eq. lia.
      - rewrite list_lookup_insert_ne by done. apply Hprev. lia. }
    rewrite length_imap, Hal in Hl'2. simpl.
    match goal with |- context [for_range ?m ?body ?st] =>
      destruct (for_range_inv (fun b (pvg : array2 Z) =>
        shaped2 T (n * 2) pvg ∧
        (∀ t' b f lab, t' < t -> s !! t' = Some f -> labels !! t' = Some lab ->
           b < n * 2 -> get2 pvg t' b = Some (cnt f lab b)) ∧
        ∀ b', b' < b -> get2 pvg t b' = Some (cnt f lab b'))
        m body st) as (pvg' & -> & Hp1 & Hp2 & Hp3) end.
    { split; [done|]. split; [done|]. intros; lia. }
    { intros b pvg0 Hb (Hq1 & Hq2 & Hq3).
      rewrite (index_Ok _ _ _ (Hl'2 b Hb)). simpl.
      rewrite (and_sum_count h w) by done. simpl.
      eexists. split; [done|]. split; [by apply shaped2_set2|]. split.
      - intros t' b0 f0 lab0 Ht' ? ? ?.
        rewrite get2_set2_ne by (intros ?; simplify_eq; lia). by apply Hq2.
      - intros b' Hb'. destruct (decide (b' = b)) as [->|Hne].
        + apply get2_set2_eq. eapply shaped2_get2; [done|lia..].
        + rewrite get2_set2_ne by (intros ?; simplify_eq; lia). apply Hq3. lia. }
    simpl. eexists. split; [done|]. split; [done|]. split; [done|]. simpl.
    intros t' b f0 lab0 Ht' Hf0 Hlab0 Hb.
    destruct (decide (t' = t)) as [->|Hne].
    + simplify_eq. by apply Hp3.
    + apply Hp2; [lia|done..].
  - simpl. destruct HP as (HP1 & _ & HP3). simpl in *.
    exists pvg. split; [done|]. split; [done|].
    intros t b f lab Hf Hlab Hb. apply HP3; try done.
    by eapply lookup_lt_Some.
Qed.

Lemma filter_none {A} (P : A -> Prop) `{∀ x, Decision (P x)} (l : list A) :
  (∀ x, x ∈ l -> ¬ P x) -> filter P l = [].
Proof.
  induction l as [|x l IH]; intros HP; [done|].
  rewrite filter_cons_False by (apply HP; left).
  apply IH. intros y Hy. apply HP. by right.
Qed.

Lemma count_pixels_false h w (P : nat -> nat -> bool) :
  (∀ y x, y < h -> x < w -> P y x = false) -> count_pixels h w P = 0%Z.
Proof.
  intros HP. unfold count_pixels.
  rewrite (sum_list_fmap_same 0); [lia|].
  apply Forall_forall. intros y Hy%elem_of_seq.
  rewrite filter_none; [done|].
  intros x Hx%elem_of_seq. apply Is_true_false, HP; lia.
Qed.

Lemma label_of_bin_positive steps b :
  (Z.of_nat b < steps)%Z -> label_of_bin steps b = (steps - Z.of_nat b)%Z.
Proof. intros H. unfold label_of_bin. by rewrite (proj2 (Z.ltb_lt _ _) H). Qed.

Lemma label_of_bin_negative steps b :
  (steps <= Z.of_nat b)%Z -> label_of_bin steps b = (- (Z.of_nat b - steps + 1))%Z.
Proof. intros H. unfold label_of_bin. by rewrite (proj2 (Z.ltb_ge _ _) H). Qed.

(** C4. The bins of [compute_pvg] carry the labels [steps, ..., 1] and then
    [-1, ..., -steps], and cell [(t, b)] of the result is the number of
    pixels that are segmented in frame [t] and labelled with the label of
    bin [b] there. *)
Theorem C4_compute_pvg_bins T h w (s : array3 bool) (labels : array3 Z) (steps : Z) :
  shaped3 T h w s -> shaped3 T h w labels -> (0 <= steps)%Z ->
  let n := Z.to_nat steps in
  (∀ b, b < n -> all_steps steps !! b = Some (steps - Z.of_nat b)%Z) ∧
  (∀ b, b < n -> all_steps steps !! (n + b) = Some (- (Z.of_nat b + 1))%Z) ∧
  length (all_steps steps) = n * 2 ∧
  ∃ pvg, compute_pvg s labels steps = Ok pvg ∧ shaped2 T (n * 2) pvg ∧
    ∀ t b f lab j, s !! t = Some f -> labels !! t = Some lab ->
      all_steps steps !! b = Some j ->
      get2 pvg t b = Some (count_pixels h w (fun y x =>
        bool_decide (get2 f y x = Some true ∧ get2 lab y x = Some j))).
Proof.
  intros Hs Hl Hsteps n. split; [|split; [|split]].
  - intros b Hb. rewrite all_steps_lookup by (fold n; lia).
    rewrite label_of_bin_positive by lia. done.
  - intros b Hb. rewrite all_steps_lookup by (fold n; lia).
    rewrite label_of_bin_negative by lia. f_equal. lia.
  - by apply all_steps_length.
  - destruct (compute_pvg_Ok T h w s labels steps Hs Hl Hsteps) as (pvg & Hp & Hsh & Hc).
    exists pvg. split; [done|]. split; [done|].
    intros t b f lab j Hf Hlab Hj.
    pose proof (lookup_lt_Some _ _ _ Hj) as Hb.
    rewrite all_steps_length in Hb by done.
    rewrite all_steps_lookup in Hj by done. simplify_eq.
    by apply Hc.
Qed.

Lemma C4_compute_pvg_bins_witness :
  shaped3 1 2 2 [[[true; true]; [false; true]]] ∧
  shaped3 1 2 2 [[[1; -1]; [2; -2]]]%Z ∧ (0 <= 2)%Z ∧
  all_steps 2 !! 0 = Some 2%Z ∧ all_steps 2 !! 3 = Some (-2)%Z ∧
  ∃ pvg, compute_pvg [[[true; true]; [false; true]]] [[[1; -1]; [2; -2]]]%Z 2
           = Ok pvg ∧
         get2 pvg 0 3 = Some 1%Z.
Proof.
  assert (shaped3 1 2 2 [[[true; true]; [false; true]]]) as Hs
    by (repeat (split || constructor)).
  assert (shaped3 1 2 2 [[[1; -1]; [2; -2]]]%Z) as Hl
    by (repeat (split || constructor)).
  split; [exact Hs|]. split; [exact Hl|]. split; [lia|].
  destruct (C4_compute_pvg_bins 1 2 2 _ _ 2 Hs Hl ltac:(lia))
    as (Hpos & Hneg & _ & pvg & Hp & _ & Hc).
  split; [exact (Hpos 0 ltac:(simpl; lia))|].
  split; [exact (Hneg 1 ltac:(simpl; lia))|].
  exists pvg. split; [exact Hp|].
  exact (Hc 0 3 _ _ (-2)%Z eq_refl eq_refl eq_refl).
Defined.

(** C8. A frame whose segmentation mask is entirely false is no error:
    [compute_pvg] returns, and the row of that frame is all zeros. *)
Theorem C8_empty_mask_zero_row T h w (s : array3 bool) (labels : array3 Z) (steps : Z)
    (t : nat) (f : array2 bool) :
  shaped3 T h w s -> shaped3 T h w labels -> (0 <= steps)%Z ->
  s !! t = Some f ->
  (∀ y x, get2 f y x ≠ Some true) ->
  ∃ pvg, compute_pvg s labels steps = Ok pvg ∧
         pvg !! t = Some (replicate (Z.to_nat steps * 2) 0%Z).
Proof.
  intros Hs Hl Hsteps Hf Hempty.
  destruct (compute_pvg_Ok T h w s labels steps Hs Hl Hsteps) as (pvg & Hp & Hsh & Hc).
  exists pvg. split; [done|].
  pose proof (lookup_lt_Some _ _ _ Hf) as Ht.
  destruct Hs as [HsT _]. pose proof Hl as [HlT _].
  destruct (lookup_lt_is_Some_2 labels t) as [lab Hlab]; [lia|].
  destruct Hsh as [HpT Hrows].
  destruct (lookup_lt_is_Some_2 pvg t) as [row Hrow]; [lia|].
  rewrite Hrow. f_equal.
  rewrite Forall_lookup in Hrows. pose proof (Hrows _ _ Hrow) as Hlen.
  apply list_eq. intros b. destruct (decide (b < Z.to_nat steps * 2)) as [Hb|Hb].
  - rewrite lookup_replicate_2 by done.
    pose proof (Hc t b f lab Hf Hlab Hb) as Hcell.
    unfold get2 in Hcell. rewrite Hrow in Hcell. simpl in Hcell.
    rewrite Hcell. f_equal. apply count_pixels_false.
    intros y x _ _. unfold hit. apply bool_decide_eq_false.
    intros [? _]. by eapply Hempty.
  - rewrite (proj1 (lookup_replicate_None _ _ _)) by lia.
    apply lookup_ge_None_2. lia.
Qed.

Lemma C8_empty_mask_zero_row_witness :
  shaped3 2 1 2 [[[true; true]]; [[false; false]]] ∧
  shaped3 2 1 2 [[[1; -1]]; [[1; -1]]]%Z ∧ (0 <= 1)%Z ∧
  ∃ pvg, compute_pvg [[[true; true]]; [[false; false]]] [[[1; -1]]; [[1; -1]]]%Z 1
           = Ok pvg ∧ pvg !! 1 = Some [0; 0]%Z.
Proof.
  assert (shaped3 2 1 2 [[[true; true]]; [[false; false]]]) as Hs
    by (repeat (split || constructor)).
  assert (shaped3 2 1 2 [[[1; -1]]; [[1; -1]]]%Z) as Hl
    by (repeat (split || constructor)).
  split; [exact Hs|]. split; [exact Hl|]. split; [lia|].
  apply (C8_empty_mask_zero_row 2 1 2 _ _ 1 1 [[false; false]] Hs Hl);
    [lia|reflexivity|].
  intros [|[|?]] [|[|[|?]]]; discriminate.
Defined.

(** ** The stored labels *)

Lemma sign_of_nonneg v : (0 <= v)%R -> sign_of v = 1%Z.
Proof. intros H. unfold sign_of. destruct (Rge_dec v 0); [done|lra]. Qed.

Lemma sign_of_neg v : (v < 0)%R -> sign_of v = (-1)%Z.
Proof. intros H. unfold sign_of. destruct (Rge_dec v 0); [lra|done]. Qed.

Lemma sign_of_cases v : sign_of v = 1%Z ∨ sign_of v = (-1)%Z.
Proof. unfold sign_of. destruct (Rge_dec v 0); auto. Qed.






Lemma find_parts_empty h w (lp : array3 R) (lr : array2 R) :
  lp = [] -> shaped2 h w lr -> 0 < h -> 0 < w ->
  _find_parts (h, w) lp lr = Raise ValueError.
Proof.
  intros -> Hlr Hh Hw. apply find_parts_raise; [done..|].
  destruct (shaped2_get2 _ _ _ 0 0 Hlr Hh Hw) as [v Hv].
  unfold pixel_label. by rewrite (index2_get2 _ _ _ _ Hv).
Qed.

Lemma exact_label_bounds v c n :
  c < n -> (1 <= Z.abs (exact_label v c) <= Z.of_nat n)%Z.
Proof. intros Hc. unfold exact_label. destruct (sign_of_cases v) as [-> | ->]; lia. Qed.


Lemma stored_label_bounds v c n :
  c < n -> n <= 255 -> (1 <= Z.abs (stored_label v c) <= Z.of_nat n)%Z.
Proof.
  intros Hc Hn. unfold stored_label, exact_label, int8.
  destruct (sign_of_cases v) as [-> | ->].
  - destruct (decide (c < 127)).
    + rewrite Z.mod_small by lia. lia.
    + replace ((1 * (Z.of_nat c + 1) + 128) mod 256)%Z
        with (1 * (Z.of_nat c + 1) + 128 - 256)%Z; [lia|].
      apply Z.mod_unique with 1%Z; lia.
  - destruct (decide (c < 128)).
    + rewrite Z.mod_small by lia. lia.
    + replace ((-1 * (Z.of_nat c + 1) + 128) mod 256)%Z
        with (-1 * (Z.of_nat c + 1) + 128 + 256)%Z; [lia|].
      apply Z.mod_unique with (-1)%Z; lia.
Qed.

Lemma single_pixel {A} (a : array2 A) (z : A) :
  shaped2 1 1 a -> get2 a 0 0 = Some z -> a = [[z]].
Proof.
  intros [Hlen Hrows] Hz. destruct a as [|r [|]]; try done.
  apply Forall_cons in Hrows as [Hr _]. destruct r as [|z' [|]]; try done.
  unfold get2 in Hz. simpl in Hz. by simplify_eq.
Qed.







(** ** The rows of the PVG matrix and the masks *)

Lemma sum_list_cons (x : nat) (l : list nat) : sum_list (x :: l) = x + sum_list l.
Proof. done. Qed.

Lemma sum_Z_of_nat (l : list nat) : sum_Z (Z.of_nat <$> l) = Z.of_nat (sum_list l).
Proof.
  unfold sum_Z. induction l as [|x l IH]; [done|].
  rewrite fmap_cons, sum_list_cons. cbn [foldr]. rewrite IH. lia.
Qed.

Lemma sum_Z_fmap_of_nat {A} (g : A -> nat) (l : list A) :
  sum_Z ((fun a => Z.of_nat (g a)) <$> l) = Z.of_nat (sum_list (g <$> l)).
Proof. by rewrite <- sum_Z_of_nat, <- list_fmap_compose. Qed.

Lemma sum_list_plus {A} (g1 g2 : A -> nat) (l : list A) :
  sum_list ((fun a => g1 a + g2 a) <$> l)
    = sum_list (g1 <$> l) + sum_list (g2 <$> l).
Proof.
  induction l as [|x l IH]; [done|].
  rewrite !fmap_cons, !sum_list_cons, IH. lia.
Qed.

Lemma sum_list_zero {A} (l : list A) : sum_list ((fun _ => 0) <$> l) = 0.
Proof.
  induction l as [|x l IH]; [done|]. by rewrite fmap_cons, sum_list_cons, IH.
Qed.

Lemma sum_list_swap {A B} (g : A -> B -> nat) (la : list A) (lb : list B) :
  sum_list ((fun a => sum_list (g a <$> lb)) <$> la)
    = sum_list ((fun b => sum_list ((fun a => g a b) <$> la)) <$> lb).
Proof.
  induction la as [|a la IH].
  - by rewrite sum_list_zero.
  - rewrite fmap_cons, sum_list_cons, IH.
    rewrite <- sum_list_plus. apply (f_equal sum_list).
    apply list_fmap_ext. intros _ b _. by rewrite fmap_cons, sum_list_cons.
Qed.

Lemma sum_list_ext {A} (g1 g2 : A -> nat) (l : list A) :
  (∀ a, a ∈ l -> g1 a = g2 a) -> sum_list (g1 <$> l) = sum_list (g2 <$> l).
Proof.
  intros Hg. f_equal. apply list_fmap_ext. intros i a Ha. apply Hg.
  by eapply list_elem_of_lookup_2.
Qed.

Lemma length_filter_sum {A} (P : A -> bool) (l : list A) :
  length (filter (fun x => P x) l)
    = sum_list ((fun x => if P x then 1 else 0) <$> l).
Proof.
  induction l as [|x l IH]; [done|].
  rewrite filter_cons, fmap_cons, sum_list_cons, <- IH.
  by destruct (P x).
Qed.

Lemma sum_indicator_unique (P : nat -> bool) (b0 B : nat) :
  (∀ b, b < B -> P b = bool_decide (b = b0)) ->
  sum_list ((fun b => if P b then 1 else 0) <$> seq 0 B)
    = if decide (b0 < B) then 1 else 0.
Proof.
  induction B as [|B IH]; intros HP; [done|].
  rewrite seq_S, fmap_app, sum_list_with_app, IH by (intros; apply HP; lia).
  rewrite fmap_cons, sum_list_cons. simpl. rewrite HP by lia.
  destruct (decide (b0 < B)), (decide (b0 < S B)); try lia.
  - rewrite bool_decide_eq_false_2 by lia. done.
  - assert (B = b0) as -> by lia. by rewrite bool_decide_eq_true_2.
  - rewrite bool_decide_eq_false_2 by lia. done.
Qed.

Lemma label_of_bin_unique steps v :
  (1 <= Z.abs v <= steps)%Z ->
  ∃ b0, b0 < Z.to_nat steps * 2 ∧
    ∀ b, b < Z.to_nat steps * 2 ->
      bool_decide (label_of_bin steps b = v) = bool_decide (b = b0).
Proof.
  intros Hv.
  exists (if decide (0 < v)%Z then Z.to_nat (steps - v) else Z.to_nat (steps - v - 1)).
  split; [destruct (decide (0 < v)%Z); lia|].
  intros b Hb. apply bool_decide_ext. unfold label_of_bin.
  destruct (Z.ltb_spec (Z.of_nat b) steps), (decide (0 < v)%Z); lia.
Qed.

(** When every label of a frame is the label of some bin, the row of the
    frame adds up to the number of segmented pixels. *)
Lemma compute_pvg_row_sum T h w (s : array3 bool) (labels : array3 Z) steps t f lab :
  shaped3 T h w s -> shaped3 T h w labels -> (0 <= steps)%Z ->
  s !! t = Some f -> labels !! t = Some lab ->
  (∀ y x v, get2 lab y x = Some v -> (1 <= Z.abs v <= steps)%Z) ->
  ∃ pvg row, compute_pvg s labels steps = Ok pvg ∧ pvg !! t = Some row ∧
    sum_Z row = popcount h w f.
Proof.
  intros Hs Hl Hsteps Hf Hlab Hrange.
  destruct (compute_pvg_Ok T h w s labels steps Hs Hl Hsteps) as (pvg & Hp & Hsh & Hc).
  pose proof (lookup_lt_Some _ _ _ Hf) as Ht. destruct Hs as [HsT _].
  destruct Hsh as [HpT Hrows].
  destruct (lookup_lt_is_Some_2 pvg t) as [row Hrow]; [lia|].
  exists pvg, row. split; [done|]. split; [done|].
  rewrite Forall_lookup in Hrows. pose proof (Hrows _ _ Hrow) as Hlen.
  set (n2 := Z.to_nat steps * 2) in *.
  pose proof (shaped3_lookup _ _ _ _ _ _ Hl Hlab) as Hlabs.
  rewrite (list_eq_seq row n2
    (fun b => count_pixels h w (hit f lab (label_of_bin steps b)))); [|done|].
  2:{ intros b Hb. specialize (Hc t b f lab Hf Hlab Hb).
      unfold get2 in Hc. rewrite Hrow in Hc. done. }
  unfold popcount, count_pixels.
  rewrite sum_Z_fmap_of_nat. f_equal.
  rewrite (sum_list_swap (fun b y =>
    length (filter (fun x => hit f lab (label_of_bin steps b) y x) (seq 0 w)))).
  apply sum_list_ext. intros y Hy%elem_of_seq.
  rewrite (sum_list_ext _ (fun b => sum_list
    ((fun x => if hit f lab (label_of_bin steps b) y x then 1 else 0) <$> seq 0 w)))
    by (intros; apply length_filter_sum).
  rewrite (sum_list_swap (fun b x =>
    if hit f lab (label_of_bin steps b) y x then 1 else 0)).
  rewrite length_filter_sum. apply sum_list_ext. intros x Hx%elem_of_seq.
  destruct (shaped2_get2 _ _ _ y x Hlabs) as [v Hv]; [lia..|].
  destruct (label_of_bin_unique steps v (Hrange _ _ _ Hv)) as (b0 & Hb0 & Hb).
  destruct (bool_decide (get2 f y x = Some true)) eqn:E.
  - apply bool_decide_eq_true in E.
    rewrite (sum_indicator_unique _ b0).
    + by rewrite decide_True.
    + intros b Hlt. rewrite <- (Hb b Hlt). unfold hit. apply bool_decide_ext.
      rewrite Hv. split; [by intros [_ [= ->]]|by intros ->].
  - apply bool_decide_eq_false in E.
    rewrite (sum_list_ext _ (fun _ => 0)); [apply sum_list_zero|].
    intros b _. unfold hit. rewrite bool_decide_eq_false_2; [done|].
    by intros [? _].
Qed.

(** Up to 255 steps, every label is nonzero and of magnitude at most
    [steps]. *)
Lemma get_labels_range x_low x_high coef intercept h w steps :
  (0 < steps <= 255)%Z ->
  ∃ labels, get_labels x_low x_high coef intercept (h, w) steps = Ok labels ∧
    shaped2 h w labels ∧
    ∀ i j, i < h -> j < w ->
      ∃ v, get2 labels i j = Some v ∧ (1 <= Z.abs v <= steps)%Z.
Proof.
  intros Hsteps.
  destruct (get_labels_Ok x_low x_high coef intercept h w steps)
    as (labels & H & Hs & Hl); [lia|].
  exists labels. split; [done|]. split; [done|]. intros i j Hi Hj.
  destruct (Hl i j Hi Hj) as (c & Hc & _ & Hlab).
  eexists. split; [done|].
  pose proof (stored_label_bounds (map_cell coef intercept i j) c
    (Z.to_nat steps) Hc ltac:(lia)) as Hb.
  unfold stored_label, exact_label in Hb. lia.
Qed.

(** With at most 255 steps no label wraps to 0, and the rows of the PVG
    matrix add up to the number of segmented pixels of their frames. *)
Lemma pvg_row_sum_classified T h w (s : array3 bool) (labels : array3 Z) steps :
  shaped3 T h w s -> length labels = T -> (0 < steps <= 255)%Z ->
  (∀ t lab, labels !! t = Some lab ->
     ∃ x_low x_high coef intercept,
       get_labels x_low x_high coef intercept (h, w) steps = Ok lab) ->
  ∃ pvg, compute_pvg s labels steps = Ok pvg ∧
    ∀ t f, s !! t = Some f ->
      ∃ row, pvg !! t = Some row ∧ sum_Z row = popcount h w f.
Proof.
  intros Hs Hlen Hsteps Hclass.
  assert (∀ t lab, labels !! t = Some lab ->
    shaped2 h w lab ∧
    ∀ y x v, get2 lab y x = Some v -> (1 <= Z.abs v <= steps)%Z) as Hlab.
  { intros t lab Ht.
    destruct (Hclass t lab Ht) as (x_low & x_high & coef & intercept & Hg).
    destruct (get_labels_range x_low x_high coef intercept h w steps Hsteps)
      as (lab' & Hg' & Hsh & Hr).
    rewrite Hg in Hg'. injection Hg' as <-. split; [done|].
    intros y x v Hv.
    assert (y < h ∧ x < w) as [Hy Hx].
    { destruct Hsh as [Hl Hrows]. unfold get2 in Hv.
      destruct (lab !! y) as [r|] eqn:Er; [|done]. simpl in Hv.
      rewrite Forall_lookup in Hrows. pose proof (Hrows _ _ Er) as Hw.
      apply lookup_lt_Some in Er, Hv. lia. }
    destruct (Hr y x Hy Hx) as (v' & Hv' & Hb). by simplify_eq. }
  assert (shaped3 T h w labels) as Hl.
  { split; [done|]. apply Forall_lookup. intros t lab Ht. by apply (Hlab t). }
  destruct (compute_pvg_Ok T h w s labels steps Hs Hl) as (pvg & Hp & _); [lia|].
  exists pvg. split; [done|]. intros t f Hf.
  pose proof (lookup_lt_Some _ _ _ Hf) as Ht. destruct Hs as [HsT Hsf].
  destruct (lookup_lt_is_Some_2 labels t) as [lab Hlabt]; [lia|].
  destruct (compute_pvg_row_sum T h w s labels steps t f lab)
    as (pvg' & row & Hp' & Hrow & Hsum); try done; [lia|by apply (Hlab t)|].
  rewrite Hp in Hp'. injection Hp' as <-. by exists row.
Qed.

(** ** Axes along the diagonal *)

Lemma tan_atan_1_orth : np_tan (atan 1 - PI / 2) = (-1)%R.
Proof.
  rewrite np_tan_orth by lra.
  replace (atan 1 - PI / 2)%R with (- (PI / 4))%R by (rewrite atan_1; lra).
  rewrite tan_neg, tan_PI4. lra.
Qed.

(** Along the diagonal every quantity is a small integer, and no cell is
    rounded. *)
Lemma orth_distance_diag (m : nat) (x_high : R) (b : Z) k i j :
  0 < m -> x_high = INR m ->
  (Z.of_nat i <= 2 ^ 20)%Z -> (Z.of_nat j <= 2 ^ 20)%Z ->
  (Z.of_nat k <= 2 ^ 20)%Z -> (Z.abs b <= 2 ^ 20)%Z ->
  orth_distance 0 x_high 1 (IZR b) (S m) k i j
    = (INR i + INR j - 2 * INR k - IZR b)%R.
Proof.
  intros Hm -> Hi Hj Hk Hb. unfold orth_distance, sample_x.
  rewrite tan_atan_1_orth. replace (S m - 1) with m by lia.
  assert (INR m ≠ 0)%R by (apply not_0_INR; lia).
  replace (1 * (0 + INR k * ((INR m - 0) / INR m)) + IZR b
           - -1 * (0 + INR k * ((INR m - 0) / INR m)))%R
    with (IZR (2 * Z.of_nat k + b))
    by (rewrite plus_IZR, mult_IZR, <- INR_IZR_INZ; field; done).
  change (-1)%R with (IZR (-1)).
  rewrite map_cell_int by (simpl Z.pow in *; lia).
  rewrite plus_IZR, mult_IZR, <- INR_IZR_INZ. lra.
Qed.

(** On the axis [y = x + b] sampled at the integers [0..m], a pixel on the
    last orthogonal line and on the non-negative side is labelled
    [int8 (m + 1)]. *)
Lemma get_labels_diag_far (m : nat) (x_high : R) (b : Z) h w i j :
  0 < m -> x_high = INR m -> i < h -> j < w ->
  (Z.of_nat i <= 2 ^ 20)%Z -> (Z.of_nat j <= 2 ^ 20)%Z ->
  (Z.of_nat m <= 2 ^ 20)%Z -> (Z.abs b <= 2 ^ 20)%Z ->
  (INR i + INR j - IZR b = 2 * INR m)%R ->
  (0 <= INR i - (INR j + IZR b))%R ->
  ∃ labels, get_labels 0 x_high 1 (IZR b) (h, w) (Z.of_nat (S m)) = Ok labels ∧
    shaped2 h w labels ∧
    get2 labels i j = Some (int8 (Z.of_nat m + 1)).
Proof.
  intros Hm Hx Hi Hj Hi' Hj' Hm' Hb Hfar Hside.
  destruct (get_labels_Ok 0 x_high 1 (IZR b) h w (Z.of_nat (S m)))
    as (labels & Hg & Hs & Hl); [lia|].
  exists labels. split; [done|]. split; [done|].
  rewrite Nat2Z.id in Hl.
  destruct (Hl i j Hi Hj) as (c & Hc & Hmin & Hlab).
  destruct (Hmin m) as [Hle _]; [lia|].
  rewrite !(orth_distance_diag m x_high b) in Hle by (done || lia).
  replace (INR i + INR j - 2 * INR m - IZR b)%R with 0%R in Hle by lra.
  rewrite Rabs_R0 in Hle.
  assert (INR i + INR j - 2 * INR c - IZR b = 0)%R as Hzero.
  { destruct (Req_dec (INR i + INR j - 2 * INR c - IZR b) 0) as [|Hne]; [done|].
    apply Rabs_pos_lt in Hne. lra. }
  assert (c = m) as -> by (apply INR_eq; lra).
  rewrite Hlab.
  change 1%R with (IZR 1) at 1.
  rewrite map_cell_int by (simpl Z.pow in *; lia).
  rewrite sign_of_nonneg by lra. do 2 f_equal. lia.
Qed.

Lemma INR_255 : INR 255 = 255%R.
Proof. by rewrite INR_IZR_INZ. Qed.

Lemma INR_127 : INR 127 = 127%R.
Proof. by rewrite INR_IZR_INZ. Qed.

(** C2, at an input where it fails. With 256 orthogonal lines along the
    diagonal of a 256 by 256 image, the pixel at the far end of the axis is
    closest to the line of index 255 and on the non-negative side, and the
    label stored for it is 0. *)
Theorem C2_label_zero_at_256_steps :
  ∃ labels, get_labels 0 255 1 0 (256, 256) 256 = Ok labels ∧
    shaped2 256 256 labels ∧ get2 labels 255 255 = Some 0%Z.
Proof.
  destruct (get_labels_diag_far 255 255 0 256 256 255 255) as (labels & H & Hs & Hl);
    [lia|by rewrite INR_255|lia|lia|simpl; lia..|rewrite INR_255; lra
    |rewrite INR_255; lra|].
  exists labels. split; [exact H|]. split; [done|]. exact Hl.
Qed.

(** C3, at an input where it fails. With 128 orthogonal lines along the
    diagonal of a 128 by 128 image, the pixel (127, 127) lies on the axis
    (sign +1) and on the line of index 127, the unique closest one; the
    label stored for it is -128, not 1 * (127 + 1). *)
Theorem C3_label_wraps_at_128_steps :
  let d k := orth_distance 0 127 1 0 128 k 127 127 in
  sign_of (INR 127 - (1 * INR 127 + 0)) = 1%Z ∧
  (∀ k, k < 128 -> (Rabs (d 127%nat) <= Rabs (d k))%R ∧
                   (k ≠ 127 -> (Rabs (d 127%nat) < Rabs (d k))%R)) ∧
  ∃ labels, get_labels 0 127 1 0 (128, 128) 128 = Ok labels ∧
    get2 labels 127 127 = Some (-128)%Z.
Proof.
  intros d. split; [apply sign_of_nonneg; lra|]. split.
  - intros k Hk. unfold d.
    change 0%R with (IZR 0) at 1 2.
    rewrite !(orth_distance_diag 127 127 0)
      by (simpl Z.pow; lia || by rewrite INR_127).
    change (IZR 0) with 0%R.
    replace (INR 127 + INR 127 - 2 * INR 127 - 0)%R with 0%R by lra.
    rewrite Rabs_R0. split; [apply Rabs_pos|].
    intros Hne. apply Rabs_pos_lt. intros Heq. apply Hne.
    apply INR_eq. lra.
  - destruct (get_labels_diag_far 127 127 0 128 128 127 127) as (labels & H & Hs & Hl);
      [lia|by rewrite INR_127|lia|lia|simpl; lia..|lra|lra|].
    exists labels. split; [exact H|]. exact Hl.
Qed.

(** C1, at an input where it fails. With 256 steps the classifier labels
    the single pixel of a 1 by 1 image 0; that label belongs to no bin, so
    the row of the frame sums to 0 although the pixel is segmented. *)
Theorem C1_row_sum_misses_label_zero :
  get_labels 0 255 1 (-510) (1, 1) 256 = Ok [[0%Z]] ∧
  popcount 1 1 [[true]] = 1%Z ∧
  ∃ row, compute_pvg [[[true]]] [[[0%Z]]] 256 = Ok [row] ∧
         length row = 512 ∧ sum_Z row = 0%Z.
Proof.
  split; [|split].
  - destruct (get_labels_diag_far 255 255 (-510) 1 1 0 0) as (labels & H & Hs & Hl);
      [lia|by rewrite INR_255|lia|lia|simpl; lia..|rewrite INR_255; simpl; lra
      |simpl; lra|].
    change (get_labels 0 255 1 (-510) (1, 1) 256 = Ok labels) in H.
    rewrite H. f_equal. by apply single_pixel.
  - reflexivity.
  - eexists. split; [vm_compute; reflexivity|]. split; reflexivity.
Qed.

(** ** Degenerate axes *)

(** With [x_low = x_high] all orthogonal lines coincide, every arg-min is
    index 0, and the labels are +1 and -1. *)
Lemma get_labels_degenerate (x coef intercept : R) h w steps :
  (0 < steps)%Z ->
  ∃ labels, get_labels x x coef intercept (h, w) steps = Ok labels ∧
    shaped2 h w labels ∧
    ∀ i j, i < h -> j < w ->
      get2 labels i j = Some 1%Z ∨ get2 labels i j = Some (-1)%Z.
Proof.
  intros Hsteps.
  destruct (get_labels_Ok x x coef intercept h w steps Hsteps)
    as (labels & H & Hs & Hl).
  exists labels. split; [done|]. split; [done|]. intros i j Hi Hj.
  destruct (Hl i j Hi Hj) as (c & Hc & Hmin & Hlab).
  assert (∀ k, orth_distance x x coef intercept (Z.to_nat steps) k i j
             = orth_distance x x coef intercept (Z.to_nat steps) 0 i j) as Hsame.
  { intros k. unfold orth_distance, sample_x.
    rewrite Rminus_diag. unfold Rdiv. by rewrite Rmult_0_l, !Rmult_0_r. }
  assert (c = 0) as ->.
  { destruct c as [|c]; [done|]. destruct (Hmin 0) as [_ Hlt]; [lia|].
    rewrite (Hsame (S c)) in Hlt. specialize (Hlt ltac:(lia)). lra. }
  rewrite Hlab. destruct (sign_of_cases (map_cell coef intercept i j))
    as [-> | ->]; [by left|by right].
Qed.

(** C7, as the code has it. [get_labels] validates nothing. It fails, with
    the error of the library call that rejects the input and without a
    label map, when [steps] is negative and when [steps] is 0 and the image
    has a pixel; for [x_low = x_high] and [steps >= 1] it returns a label
    map, in which every label is +1 or -1. *)
Theorem C7_get_labels_failures (x_low x_high coef intercept : R) (h w : nat) (steps : Z) :
  ((steps < 0)%Z ->
     get_labels x_low x_high coef intercept (h, w) steps = Raise ValueError) ∧
  (steps = 0%Z -> 0 < h -> 0 < w ->
     get_labels x_low x_high coef intercept (h, w) steps = Raise ValueError) ∧
  (x_low = x_high -> (0 < steps)%Z ->
     ∃ labels, get_labels x_low x_high coef intercept (h, w) steps = Ok labels ∧
       shaped2 h w labels ∧
       ∀ i j, i < h -> j < w ->
         get2 labels i j = Some 1%Z ∨ get2 labels i j = Some (-1)%Z).
Proof.
  split; [|split].
  - apply get_labels_neg.
  - intros -> Hh Hw. by apply get_labels_zero.
  - intros -> Hsteps. by apply get_labels_degenerate.
Qed.

Lemma C7_get_labels_failures_witness :
  get_labels 0 1 1 0 (1, 1) (-1) = Raise ValueError ∧
  get_labels 0 1 1 0 (1, 1) 0 = Raise ValueError ∧
  ∃ labels, get_labels 2 2 1 0 (1, 1) 3 = Ok labels ∧ shaped2 1 1 labels.
Proof.
  destruct (C7_get_labels_failures 0 1 1 0 1 1 (-1)) as (Hneg & _ & _).
  destruct (C7_get_labels_failures 0 1 1 0 1 1 0) as (_ & Hzero & _).
  destruct (C7_get_labels_failures 2 2 1 0 1 1 3) as (_ & _ & Hsame).
  split; [apply Hneg; lia|]. split; [apply Hzero; [reflexivity|lia|lia]|].
  destruct (Hsame eq_refl ltac:(lia)) as (labels & H & Hs & _).
  exists labels. split; [exact H|exact Hs].
Defined.

(** C7 as stated fails: on the degenerate axis [x_low = x_high = 0],
    [get_labels] returns a label map. *)
Lemma C7_counterexample :
  (0 = 0)%R ∧ get_labels 0 0 1 0 (1, 1) 1 = Ok [[1%Z]].
Proof.
  split; [done|].
  destruct (get_labels_Ok 0 0 1 0 1 1 1) as (labels & H & Hs & Hl); [lia|].
  rewrite H. f_equal. apply single_pixel; [done|].
  destruct (Hl 0 0) as (c & Hc & _ & Hlab); [lia..|].
  assert (c = 0) as -> by (simpl in Hc; lia).
  rewrite Hlab. rewrite (map_cell_int 1 0 0 0) by (simpl; lia).
  rewrite sign_of_nonneg by (simpl; lra). done.
Qed.

(** ** What a call leaves untouched *)

Section frame.
Context (D : gset loc).

Lemma keeps_refl h : keeps D h h.
Proof. by intros l _. Qed.

Lemma keeps_trans h1 h2 h3 : keeps D h1 h2 -> keeps D h2 h3 -> keeps D h1 h3.
Proof. intros H12 H23 l Hl. by rewrite H23, H12. Qed.

Lemma keeps_dom h h' : D ⊆ dom h -> keeps D h h' -> D ⊆ dom h'.
Proof.
  intros Hd Hk l Hl. apply elem_of_dom. rewrite Hk by done.
  apply elem_of_dom. by apply Hd.
Qed.

Lemma safe_ret {A} (a : A) (Q : A -> Prop) : Q a -> safe D (mret a) Q.
Proof.
  intros HQ h _. split; [apply keeps_refl|]. by intros ? [= <-].
Qed.

Lemma safe_bind {A B} (m : M A) (k : A -> M B) (Q : A -> Prop) (Q' : B -> Prop) :
  safe D m Q -> (∀ a, Q a -> safe D (k a) Q') -> safe D (m ≫= k) Q'.
Proof.
  intros Hm Hk h Hd. destruct (Hm h Hd) as [Hkeep HQ].
  unfold mbind, M_bind. destruct (m h) as [[a|e] h1]; simpl in *.
  - destruct (Hk a (HQ a eq_refl) h1 (keeps_dom _ _ Hd Hkeep)) as [Hkeep' HQ'].
    split; [by eapply keeps_trans|done].
  - split; [done|]. by intros.
Qed.

Lemma safe_weaken {A} (m : M A) (Q Q' : A -> Prop) :
  safe D m Q -> (∀ a, Q a -> Q' a) -> safe D m Q'.
Proof.
  intros Hm HQ h Hd. destruct (Hm h Hd) as [? ?]. split; [done|]. auto.
Qed.

Lemma safe_alloc v : safe D (alloc v) (fun l => l ∉ D).
Proof.
  intros h Hd. unfold alloc. simpl.
  pose proof (is_fresh (dom h)) as Hfresh.
  split.
  - intros l Hl. apply lookup_insert_ne. intros <-. by apply Hfresh, Hd.
  - intros a [= <-] Ha. by apply Hfresh, Hd.
Qed.

Lemma safe_load l : safe D (load l) (fun _ => True).
Proof.
  intros h _. unfold load. destruct (h !! l); simpl; (split; [apply keeps_refl|done]).
Qed.

Lemma safe_lift {A} (r : result A) : safe D (lift r) (fun _ => True).
Proof. intros h _. split; [apply keeps_refl|done]. Qed.

Lemma safe_raise {A} e (Q : A -> Prop) : safe D (lift (Raise e)) Q.
Proof. intros h _. split; [apply keeps_refl|]. by intros. Qed.

Lemma safe_store l v : l ∉ D -> safe D (store l v) (fun _ => True).
Proof.
  intros Hl h _. split; [|done]. intros l' Hl'. simpl.
  apply lookup_insert_ne. by intros <-.
Qed.

Lemma safe_read {A} (as_kind : ndarray -> result A) l :
  safe D (read as_kind l) (fun _ => True).
Proof.
  unfold read. eapply safe_bind; [apply safe_load|]. intros. apply safe_lift.
Qed.

Lemma safe_read_view {A} (as_kind : ndarray -> result (list A)) view :
  safe D (read_view as_kind view) (fun _ => True).
Proof.
  unfold read_view. eapply safe_bind; [apply safe_read|]. intros. apply safe_lift.
Qed.

Lemma safe_for_in_h {A} (xs : list A) (body : A -> M unit) :
  (∀ x, safe D (body x) (fun _ => True)) ->
  safe D (for_in_h xs body) (fun _ => True).
Proof.
  intros Hbody. induction xs as [|x xs IH]; simpl.
  - by apply safe_ret.
  - eapply safe_bind; [apply Hbody|]. by intros.
Qed.

Lemma safe_for_range_h n (body : nat -> M unit) :
  (∀ k, safe D (body k) (fun _ => True)) ->
  safe D (for_range_h n body) (fun _ => True).
Proof. apply safe_for_in_h. Qed.
End frame.

(** One syntax-directed step through a computation on the store. *)
Ltac safe_step :=
  first
    [ apply safe_read | apply safe_read_view | apply safe_lift
    | apply safe_load | apply safe_alloc
    | apply safe_store; assumption
    | apply safe_ret; try assumption; try exact I
    | apply safe_for_range_h; intros ?
    | apply safe_for_in_h; intros ?
    | eapply safe_bind; [|intros ? ?] ].

Lemma safe_find_orthogonal_points_h D x_low x_high coef intercept steps :
  safe D (_find_orthogonal_points_h x_low x_high coef intercept steps)
    (fun _ => True).
Proof. unfold _find_orthogonal_points_h. repeat safe_step. Qed.

Lemma safe_create_maps_h D im_shape c i :
  safe D (_create_maps_h im_shape c i) (fun l => l ∉ D).
Proof. unfold _create_maps_h. repeat safe_step. Qed.

Lemma safe_find_parts_h D im_shape lp lr :
  safe D (_find_parts_h im_shape lp lr) (fun l => l ∉ D).
Proof. unfold _find_parts_h. repeat safe_step. Qed.

(** [get_labels_h] writes only into the objects it allocates. *)
Lemma safe_get_labels_h D x_low x_high coef intercept image_shape steps :
  safe D (get_labels_h x_low x_high coef intercept image_shape steps)
    (fun l => l ∉ D).
Proof.
  unfold get_labels_h.
  eapply safe_bind; [apply safe_find_orthogonal_points_h|].
  intros [[[xs ys] coef_orth] io] _.
  eapply safe_bind; [apply safe_create_maps_h|]. intros lp _.
  eapply safe_bind.
  { eapply safe_bind; [apply safe_alloc|]. intros i _. apply safe_create_maps_h. }
  intros m _. eapply safe_bind; [apply safe_read_view|]. intros _ _.
  apply safe_find_parts_h.
Qed.

(** [compute_pvg_h] writes only into the objects it allocates. *)
Lemma safe_compute_pvg_h D s labels steps :
  safe D (compute_pvg_h s labels steps) (fun l => l ∉ D).
Proof.
  unfold compute_pvg_h.
  eapply safe_bind; [apply safe_read|]. intros sv _.
  destruct (steps <? 0)%Z; [apply safe_raise|].
  eapply safe_bind; [apply safe_alloc|]. intros pvg Hpvg.
  eapply safe_bind; [apply safe_read|]. intros lv _.
  eapply safe_bind; [apply safe_alloc|]. intros l Hl.
  eapply safe_bind; [apply safe_alloc|]. intros all_steps Hall.
  repeat safe_step.
  destruct x as [i j]. repeat safe_step.
Qed.

(** ** The store model computes what the value model computes *)

Lemma run_bind {A B} (m : M A) (k : A -> M B) h a h' :
  m h = (Ok a, h') -> (m ≫= k) h = k a h'.
Proof. intros Hm. unfold mbind, M_bind. by rewrite Hm. Qed.

Lemma run_bind_raise {A B} (m : M A) (k : A -> M B) h e h' :
  m h = (Raise e, h') -> (m ≫= k) h = (Raise e, h').
Proof. intros Hm. unfold mbind, M_bind. by rewrite Hm. Qed.

Lemma run_bind_fst_raise {A B} (m : M A) (k : A -> M B) h e :
  (m h).1 = Raise e -> ((m ≫= k) h).1 = Raise e.
Proof.
  intros Hm. unfold mbind, M_bind.
  destruct (m h) as [[a|e'] h']; simpl in *; congruence.
Qed.

Lemma run_alloc {B} v (k : loc -> M B) h :
  (alloc v ≫= k) h = k (fresh (dom h)) (<[fresh (dom h) := v]> h).
Proof. done. Qed.

Lemma read_lookup {A} (as_kind : ndarray -> result A) l v h :
  h !! l = Some v -> read as_kind l h = (as_kind v, h).
Proof. intros Hl. unfold read, load, mbind, M_bind. by rewrite Hl. Qed.

Lemma run_read {A B} (as_kind : ndarray -> result A) l v a (k : A -> M B) h :
  h !! l = Some v -> as_kind v = Ok a -> (read as_kind l ≫= k) h = k a h.
Proof. intros Hl Ha. apply run_bind. by rewrite (read_lookup _ _ v), Ha. Qed.

Lemma run_lift {A B} (r : result A) (k : A -> M B) h :
  (lift r ≫= k) h = match r with Ok a => k a h | Raise e => (Raise e, h) end.
Proof. unfold lift, mbind, M_bind. by destruct r. Qed.

Lemma read_view_lookup {A} (as_kind : ndarray -> result (list A)) l k v a h :
  h !! l = Some v -> as_kind v = Ok a ->
  read_view as_kind (l, k) h = (index a k, h).
Proof.
  intros Hl Ha. unfold read_view. simpl.
  rewrite (run_read _ _ v a) by done. done.
Qed.

Lemma run_read_view {A B} (as_kind : ndarray -> result (list A)) l k v a x
    (kont : A -> M B) h :
  h !! l = Some v -> as_kind v = Ok a -> a !! k = Some x ->
  (read_view as_kind (l, k) ≫= kont) h = kont x h.
Proof.
  intros Hl Ha Hk. apply run_bind.
  rewrite (read_view_lookup _ _ _ v a) by done. by rewrite (index_Ok _ _ x).
Qed.

Lemma run_read_view_index {A B} (as_kind : ndarray -> result (list A)) l k v a
    (kont : A -> M B) h :
  h !! l = Some v -> as_kind v = Ok a ->
  (read_view as_kind (l, k) ≫= kont) h
    = match index a k with Ok x => kont x h | Raise e => (Raise e, h) end.
Proof.
  intros Hl Ha. unfold mbind at 1, M_bind.
  rewrite (read_view_lookup _ _ _ v a) by done. by destruct (index a k).
Qed.

Lemma for_in_h_pure {A St} (H : St -> gmap loc ndarray) (xs : list A)
    (hbody : A -> M unit) (pbody : A -> St -> St) :
  (∀ x st, hbody x (H st) = (Ok tt, H (pbody x st))) ->
  ∀ st, for_in_h xs hbody (H st) = (Ok tt, H (foldl (fun st x => pbody x st) st xs)).
Proof.
  intros Hbody. induction xs as [|x xs IH]; intros st; simpl; [done|].
  rewrite (run_bind _ _ _ _ _ (Hbody x st)). apply IH.
Qed.

(** Simulation of a loop on values by a loop on the store, for a store that
    is a function [H] of the loop state. *)
Lemma for_in_h_refines {A St} (H : St -> gmap loc ndarray) (xs : list A)
    (hbody : A -> M unit) (pbody : A -> St -> result St) :
  (∀ x st, refines (pbody x st) (fun st' => (tt, H st')) (hbody x (H st))) ->
  ∀ st, refines (for_in xs pbody st) (fun st' => (tt, H st'))
          (for_in_h xs hbody (H st)).
Proof.
  intros Hbody. induction xs as [|x xs IH]; intros st; simpl; [done|].
  specialize (Hbody x st). destruct (pbody x st) as [st1|e]; simpl in *.
  - rewrite (run_bind _ _ _ _ _ Hbody). apply IH.
  - by apply run_bind_fst_raise.
Qed.

Lemma create_maps_h_spec h0 im_shape c i iv :
  h0 !! i = Some (Float1 iv) ->
  let l := fresh (dom h0) in
  _create_maps_h im_shape c i h0
    = (Ok l, <[l := Float3 (_create_maps im_shape c iv)]> h0).
Proof.
  intros Hi l. unfold _create_maps_h.
  rewrite (run_read _ _ _ iv) by done. rewrite run_alloc. fold l.
  assert (i ≠ l) as Hne.
  { intros Heq. apply (is_fresh (dom h0)). fold l. rewrite <- Heq.
    apply elem_of_dom. eauto. }
  set (H := fun a : array3 R => <[l := Float3 a]> h0).
  change (<[l := Float3 ?a]> h0) with (H a).
  unfold for_range_h.
  erewrite run_bind; [done|].
  unfold _create_maps, loop_range.
  apply (for_in_h_pure H). intros j a.
  apply (for_in_h_pure H). intros y a'.
  apply (for_in_h_pure H). intros x a''.
  rewrite (run_read _ _ (Float1 iv) iv);
    [|unfold H; by rewrite lookup_insert_ne|done].
  rewrite (run_read _ _ (Float3 a'') a'');
    [|unfold H; by rewrite lookup_insert_eq|done].
  unfold store, H. by rewrite insert_insert_eq.
Qed.

Lemma fresh_lookup_ne (h : gmap loc ndarray) l v :
  h !! l = Some v -> l ≠ fresh (dom h).
Proof.
  intros Hl Heq. apply (is_fresh (dom h)). rewrite <- Heq.
  apply elem_of_dom. eauto.
Qed.

Lemma lookup_insert_fresh (h : gmap loc ndarray) l v w :
  h !! l = Some v -> <[fresh (dom h) := w]> h !! l = Some v.
Proof.
  intros Hl. rewrite lookup_insert_ne; [done|].
  apply not_eq_sym. by eapply fresh_lookup_ne.
Qed.

Lemma find_orthogonal_points_h_spec h0 x_low x_high coef intercept steps :
  match _find_orthogonal_points x_low x_high coef intercept steps with
  | Ok (xs, ys, coef_orth, intercepts_orth) =>
      ∃ lx ly li h',
        _find_orthogonal_points_h x_low x_high coef intercept steps h0
          = (Ok (lx, ly, coef_orth, li), h') ∧
        h' !! li = Some (Float1 intercepts_orth)
  | Raise e =>
      (_find_orthogonal_points_h x_low x_high coef intercept steps h0).1
        = Raise e
  end.
Proof.
  unfold _find_orthogonal_points, _find_orthogonal_points_h.
  destruct (linspace x_low x_high steps) as [xs|e] eqn:E; simpl.
  - set (lx := fresh (dom h0)). set (h1 := <[lx := Float1 xs]> h0).
    set (ly := fresh (dom h1)).
    set (ys := (fun x => coef * x + intercept)%R <$> xs).
    set (h2 := <[ly := Float1 ys]> h1).
    set (li := fresh (dom h2)).
    exists lx, ly, li. eexists. split; [|apply lookup_insert_eq].
    assert (h1 !! lx = Some (Float1 xs)) as Hx by apply lookup_insert_eq.
    assert (h2 !! ly = Some (Float1 ys)) as Hy by apply lookup_insert_eq.
    assert (h2 !! lx = Some (Float1 xs)) as Hx2 by by apply lookup_insert_fresh.
    erewrite run_bind; [|rewrite run_lift; reflexivity].
    fold lx h1.
    erewrite run_bind;
      [|rewrite (run_read _ _ _ xs) by done; reflexivity].
    fold ys ly h2.
    erewrite run_bind;
      [|rewrite (run_read _ _ _ ys) by done;
        rewrite (run_read _ _ _ xs) by done; reflexivity].
    done.
  - done.
Qed.

Lemma find_parts_h_spec h0 im_shape lp lpv m k mv lrv :
  h0 !! lp = Some (Float3 lpv) -> h0 !! m = Some (Float3 mv) ->
  mv !! k = Some lrv ->
  let l := fresh (dom h0) in
  refines (_find_parts im_shape lpv lrv)
    (fun labels => (l, <[l := Int2 labels]> h0))
    (_find_parts_h im_shape lp (m, k) h0).
Proof.
  intros Hlp Hm Hk l. unfold _find_parts_h. rewrite run_alloc. fold l.
  pose proof (fresh_lookup_ne _ _ _ Hlp) as Hne1.
  pose proof (fresh_lookup_ne _ _ _ Hm) as Hne2. fold l in Hne1, Hne2.
  set (H := fun a : array2 Z => <[l := Int2 a]> h0).
  change (<[l := Int2 ?a]> h0) with (H a).
  unfold _find_parts, for_range_h, for_range.
  match goal with |- refines (for_in ?xs ?pbody ?st) _ ((?loop ≫= _) _) =>
    pose proof (for_in_h_refines H xs
      (fun i => for_in_h (seq 0 im_shape.2) (fun j =>
         lrv0 ← read_view as_float3 (m, k);
         lr ← lift (index2 lrv0 i j);
         let sign := if Rge_dec lr 0 then 1%Z else (-1)%Z in
         lp0 ← read as_float3 lp;
         col ← lift (column lp0 i j);
         closest_to ← lift (argmin (sqrt_sq col));
         cur ← read as_int2 l;
         store l (Int2 (set2 i j (int8 (sign * (Z.of_nat closest_to + 1))) cur))))
      pbody) as Hsim end.
  match type of Hsim with ?P -> _ => assert P as Hbody end.
  { intros i a. apply (for_in_h_refines H). intros j a'.
    rewrite (run_read_view _ _ _ (Float3 mv) mv lrv);
      [|unfold H; by rewrite lookup_insert_ne|done..].
    rewrite run_lift.
    destruct (index2 lrv i j) as [lr|e]; [|done]. simpl.
    rewrite (run_read _ _ (Float3 lpv) lpv);
      [|unfold H; by rewrite lookup_insert_ne|done].
    rewrite run_lift. destruct (column lpv i j) as [col|e]; [|done]. simpl.
    rewrite run_lift. destruct (argmin (sqrt_sq col)) as [c|e]; [|done]. simpl.
    rewrite (run_read _ _ (Int2 a') a');
      [|unfold H; by rewrite lookup_insert_eq|done].
    unfold store, H. by rewrite insert_insert_eq. }
  specialize (Hsim Hbody (full2 im_shape.1 im_shape.2 0%Z)).
  destruct (for_in (seq 0 im_shape.1) _ _) as [labels|e]; simpl in *.
  - by rewrite (run_bind _ _ _ _ _ Hsim).
  - by apply run_bind_fst_raise.
Qed.

(** [get_labels_h] returns what [get_labels] returns, in a new object. *)
Lemma get_labels_h_spec h0 x_low x_high coef intercept image_shape steps :
  match get_labels x_low x_high coef intercept image_shape steps with
  | Ok labels =>
      ∃ p h', get_labels_h x_low x_high coef intercept image_shape steps h0
                = (Ok p, h') ∧
              h' !! p = Some (Int2 labels)
  | Raise e =>
      (get_labels_h x_low x_high coef intercept image_shape steps h0).1 = Raise e
  end.
Proof.
  unfold get_labels, get_labels_h. destruct image_shape as [h w].
  pose proof (find_orthogonal_points_h_spec h0 x_low x_high coef intercept steps)
    as Hfop.
  destruct (_find_orthogonal_points x_low x_high coef intercept steps)
    as [[[[xs ys] co] io]|e]; simpl; [|by apply run_bind_fst_raise].
  destruct Hfop as (lx & ly & li & h1 & Hrun & Hli).
  rewrite (run_bind _ _ _ _ _ Hrun).
  rewrite (run_bind _ _ _ _ _ (create_maps_h_spec h1 (h, w) co li io Hli)).
  set (l2 := fresh (dom h1)).
  set (lpv := _create_maps (h, w) co io).
  set (h2 := <[l2 := Float3 lpv]> h1).
  set (l3 := fresh (dom h2)). set (h3 := <[l3 := Float1 [intercept]]> h2).
  erewrite run_bind;
    [|rewrite run_alloc; apply create_maps_h_spec; apply lookup_insert_eq].
  fold l3 h3. set (l4 := fresh (dom h3)).
  set (mv := _create_maps (h, w) coef [intercept]).
  set (h4 := <[l4 := Float3 mv]> h3).
  destruct (create_maps_single h w coef intercept) as (plane & Hidx & _ & _).
  fold mv in Hidx. rewrite Hidx. simpl.
  assert (mv !! 0 = Some plane) as Hplane.
  { unfold index in Hidx. by destruct (mv !! 0); simplify_eq. }
  assert (h4 !! l4 = Some (Float3 mv)) as H4 by apply lookup_insert_eq.
  assert (h4 !! l2 = Some (Float3 lpv)) as H2.
  { unfold h4, h3. do 2 (apply lookup_insert_fresh). apply lookup_insert_eq. }
  rewrite (run_read_view _ _ _ (Float3 mv) mv plane) by done.
  pose proof (find_parts_h_spec h4 (h, w) l2 lpv l4 0 mv plane H2 H4 Hplane) as Hfp.
  simpl in Hfp.
  destruct (_find_parts (h, w) lpv plane) as [labels|e]; simpl in *; [|done].
  eexists _, _. split; [exact Hfp|]. apply lookup_insert_eq.
Qed.

(** [compute_pvg_h] returns what [compute_pvg] returns on the arrays the
    store holds, in a new object. *)
Lemma compute_pvg_h_spec h0 s labels sv lv steps :
  h0 !! s = Some (Bool3 sv) -> h0 !! labels = Some (Int3 lv) ->
  match compute_pvg sv lv steps with
  | Ok pvg =>
      ∃ p h', compute_pvg_h s labels steps h0 = (Ok p, h') ∧
              h' !! p = Some (Int2 pvg)
  | Raise e => (compute_pvg_h s labels steps h0).1 = Raise e
  end.
Proof.
  intros Hs Hlabels. unfold compute_pvg, compute_pvg_h.
  rewrite (run_read _ _ _ sv) by done.
  destruct (steps <? 0)%Z; [done|]. cbv zeta.
  rewrite run_alloc. set (lp := fresh (dom h0)).
  set (P0 := full2 (length sv) (Z.to_nat steps * 2) 0%Z).
  set (h1 := <[lp := Int2 P0]> h0).
  assert (h1 !! labels = Some (Int3 lv)) as Hlab1 by by apply lookup_insert_fresh.
  assert (h1 !! s = Some (Bool3 sv)) as Hs1 by by apply lookup_insert_fresh.
  rewrite (run_read _ _ _ lv) by done.
  rewrite run_alloc. set (ll := fresh (dom h1)).
  set (L0 := full3 _ _ _ false).
  set (h2 := <[ll := Bool3 L0]> h1).
  rewrite run_alloc. set (la := fresh (dom h2)).
  assert (h1 !! lp = Some (Int2 P0)) as Hp1 by apply lookup_insert_eq.
  assert (h2 !! ll = Some (Bool3 L0)) as Hl2 by apply lookup_insert_eq.
  assert (h2 !! lp = Some (Int2 P0)) as Hp2 by by apply lookup_insert_fresh.
  assert (h2 !! labels = Some (Int3 lv)) as Hlab2 by by apply lookup_insert_fresh.
  assert (h2 !! s = Some (Bool3 sv)) as Hs2 by by apply lookup_insert_fresh.
  pose proof (fresh_lookup_ne _ _ _ Hp1) as Hne_pl. fold ll in Hne_pl.
  pose proof (fresh_lookup_ne _ _ _ Hl2) as Hne_la. fold la in Hne_la.
  pose proof (fresh_lookup_ne _ _ _ Hp2) as Hne_pa. fold la in Hne_pa.
  pose proof (fresh_lookup_ne _ _ _ Hs) as Hne_sp. fold lp in Hne_sp.
  pose proof (fresh_lookup_ne _ _ _ Hs1) as Hne_sl. fold ll in Hne_sl.
  pose proof (fresh_lookup_ne _ _ _ Hs2) as Hne_sa. fold la in Hne_sa.
  pose proof (fresh_lookup_ne _ _ _ Hlabels) as Hne_bp. fold lp in Hne_bp.
  pose proof (fresh_lookup_ne _ _ _ Hlab1) as Hne_bl. fold ll in Hne_bl.
  pose proof (fresh_lookup_ne _ _ _ Hlab2) as Hne_ba. fold la in Hne_ba.
  erewrite run_bind;
    [|rewrite (run_read _ _ (Int1 _) _) by (apply lookup_insert_eq || done);
      unfold store; rewrite insert_insert_eq; reflexivity].
  erewrite run_bind;
    [|rewrite (run_read _ _ (Int1 _) _) by (apply lookup_insert_eq || done);
      unfold store; rewrite insert_insert_eq; reflexivity].
  fold (all_steps steps).
  set (H := fun st : array2 Z * array3 bool =>
    <[lp := Int2 st.1]> (<[ll := Bool3 st.2]> (<[la := Int1 (all_steps steps)]> h0))).
  assert (<[la := Int1 (all_steps steps)]> h2 = H (P0, L0)) as ->.
  { unfold H, h2, h1. simpl.
    rewrite (insert_insert_ne _ la ll) by done.
    rewrite (insert_insert_ne _ la lp) by done.
    by rewrite (insert_insert_ne _ ll lp) by done. }
  assert (∀ st, H st !! lp = Some (Int2 st.1)) as HHp
    by (intros; apply lookup_insert_eq).
  assert (∀ st, H st !! ll = Some (Bool3 st.2)) as HHl
    by (intros; unfold H; rewrite lookup_insert_ne by done; apply lookup_insert_eq).
  assert (∀ st, H st !! la = Some (Int1 (all_steps steps))) as HHa
    by (intros; unfold H; rewrite !lookup_insert_ne by done; apply lookup_insert_eq).
  assert (∀ st, H st !! s = Some (Bool3 sv)) as HHs
    by (intros; unfold H; by rewrite !lookup_insert_ne by done).
  assert (∀ st, H st !! labels = Some (Int3 lv)) as HHb
    by (intros; unfold H; by rewrite !lookup_insert_ne by done).
  assert (∀ p l l', <[ll := Bool3 l']> (H (p, l)) = H (p, l')) as Hstl.
  { intros. unfold H. simpl. rewrite (insert_insert_ne _ ll lp) by done.
    by rewrite insert_insert_eq. }
  assert (∀ p p' l, <[lp := Int2 p']> (H (p, l)) = H (p', l)) as Hstp.
  { intros. unfold H. simpl. by rewrite insert_insert_eq. }
  clearbody H. unfold for_range_h, for_range.
  match goal with
  | |- context [for_in ?xs ?pbody ?st] =>
    match goal with
    | |- context [for_in_h xs ?hbody] =>
      pose proof (for_in_h_refines H xs hbody pbody) as Hsim
    end
  end.
  match type of Hsim with ?P -> _ => assert P as Hbody end.
  { clear Hsim. intros t [p l]. cbv beta iota.
    rewrite (run_read_view_index _ _ _ (Bool3 sv) sv) by done.
    destruct (index sv t) as [f|e] eqn:Ef; [|done]. simpl.
    apply index_lookup in Ef.
    rewrite (run_read _ _ (Int1 (all_steps steps)) (all_steps steps)) by done.
    match goal with
    | |- context [for_in ?xs ?pbody ?st] =>
      match goal with
      | |- context [for_in_h xs ?hbody] =>
        pose proof (for_in_h_refines (fun l' => H (p, l')) xs hbody pbody) as Hsim1
      end
    end.
    match type of Hsim1 with ?P -> _ => assert P as Hbody1 end.
    { clear Hsim1. intros [i j] l'. cbv beta iota.
      rewrite (run_read_view_index _ _ _ (Int3 lv) lv) by done.
      destruct (index lv t) as [lf|e]; [|done]. simpl.
      rewrite (run_read _ _ (Bool3 l') l') by (done || apply (HHl (p, l'))).
      unfold store. by rewrite Hstl. }
    specialize (Hsim1 Hbody1 l). clear Hbody1.
    destruct (for_in (imap pair (all_steps steps)) _ l) as [l'|e]; simpl in *;
      [|by apply run_bind_fst_raise].
    rewrite (run_bind _ _ _ _ _ Hsim1). clear Hsim1.
    match goal with
    | |- context [for_in ?xs ?pbody ?st] =>
      match goal with
      | |- context [for_in_h xs ?hbody] =>
        pose proof (for_in_h_refines (fun p' => H (p', l')) xs hbody pbody) as Hsim2
      end
    end.
    match type of Hsim2 with ?P -> _ => assert P as Hbody2 end.
    { clear Hsim2. intros i p'. cbv beta.
      rewrite (run_read_view _ _ _ (Bool3 sv) sv f) by done.
      rewrite (run_read_view_index _ _ _ (Bool3 l') l')
        by (done || apply (HHl (p', l'))).
      destruct (index l' i) as [li|e]; [|done]. simpl.
      rewrite run_lift. destruct (and_sum f li) as [c|e]; [|done]. simpl.
      rewrite (run_read _ _ (Int2 p') p') by (done || apply (HHp (p', l'))).
      unfold store. by rewrite Hstp. }
    specialize (Hsim2 Hbody2 p). clear Hbody2.
    destruct (for_in (seq 0 (Z.to_nat steps * 2)) _ p) as [p'|e]; simpl in *; done. }
  specialize (Hsim Hbody (P0, L0)). clear Hbody.
  destruct (for_in (seq 0 (length sv)) _ (P0, L0)) as [[p l]|e]; simpl in *.
  - rewrite (run_bind _ _ _ _ _ Hsim). eexists _, _. split; [done|]. apply (HHp (p, l)).
  - by apply run_bind_fst_raise.
Qed.

(** C9. No call writes into an array of its caller. Run from any store,
    [get_labels] and [compute_pvg] leave every array object that existed
    before the call exactly as it was, whether they return or raise; in
    particular the segmentation stack and the label stack handed to
    [compute_pvg] are only read. When the computation on values returns,
    the call returns a reference to a new array object, which holds that
    result. *)
Theorem C9_inputs_not_mutated (h0 : gmap loc ndarray) :
  (∀ x_low x_high coef intercept image_shape steps,
     let run := get_labels_h x_low x_high coef intercept image_shape steps h0 in
     keeps (dom h0) h0 (snd run) ∧
     match get_labels x_low x_high coef intercept image_shape steps with
     | Ok labels =>
         ∃ p, fst run = Ok p ∧ (p ∉ dom h0) ∧ snd run !! p = Some (Int2 labels)
     | Raise e => fst run = Raise e
     end) ∧
  (∀ s labels sv lv steps,
     h0 !! s = Some (Bool3 sv) -> h0 !! labels = Some (Int3 lv) ->
     let run := compute_pvg_h s labels steps h0 in
     keeps (dom h0) h0 (snd run) ∧
     snd run !! s = Some (Bool3 sv) ∧ snd run !! labels = Some (Int3 lv) ∧
     match compute_pvg sv lv steps with
     | Ok pvg =>
         ∃ p, fst run = Ok p ∧ (p ∉ dom h0) ∧ snd run !! p = Some (Int2 pvg)
     | Raise e => fst run = Raise e
     end).
Proof.
  split.
  - intros x_low x_high coef intercept image_shape steps run.
    destruct (safe_get_labels_h (dom h0) x_low x_high coef intercept
      image_shape steps h0) as [Hkeep Hfresh]; [done|].
    fold run in Hkeep, Hfresh. split; [done|].
    pose proof (get_labels_h_spec h0 x_low x_high coef intercept image_shape steps)
      as Hspec.
    destruct (get_labels x_low x_high coef intercept image_shape steps)
      as [labels|e]; [|done].
    destruct Hspec as (p & h' & Hrun & Hp). fold run in Hrun.
    exists p. rewrite Hrun in *. simpl in *. split; [done|]. split; [by apply Hfresh|done].
  - intros s labels sv lv steps Hs Hl run.
    destruct (safe_compute_pvg_h (dom h0) s labels steps h0) as [Hkeep Hfresh];
      [done|].
    fold run in Hkeep, Hfresh. split; [done|].
    split; [rewrite Hkeep; [done|apply elem_of_dom; eauto]|].
    split; [rewrite Hkeep; [done|apply elem_of_dom; eauto]|].
    pose proof (compute_pvg_h_spec h0 s labels sv lv steps Hs Hl) as Hspec.
    destruct (compute_pvg sv lv steps) as [pvg|e]; [|done].
    destruct Hspec as (p & h' & Hrun & Hp). fold run in Hrun.
    exists p. rewrite Hrun in *. simpl in *. split; [done|]. split; [by apply Hfresh|done].
Qed.

Lemma C9_inputs_not_mutated_witness :
  let h0 : gmap loc ndarray :=
    <[2%positive := Int3 [[[1; -1]]]%Z]> (<[1%positive := Bool3 [[[true; true]]]]> ∅) in
  let run := compute_pvg_h 1%positive 2%positive 1 h0 in
  snd run !! 1%positive = Some (Bool3 [[[true; true]]]) ∧
  snd run !! 2%positive = Some (Int3 [[[1; -1]]]%Z) ∧
  ∃ p, fst run = Ok p ∧ (p ∉ dom h0) ∧ snd run !! p = Some (Int2 [[1; 1]]%Z).
Proof.
  intros h0 run.
  destruct (proj2 (C9_inputs_not_mutated h0) 1%positive 2%positive
    [[[true; true]]] [[[1; -1]]]%Z 1%Z eq_refl eq_refl) as (_ & Hs & Hl & Hp).
  split; [exact Hs|]. split; [exact Hl|]. exact Hp.
Defined.
(** * Further properties of [pvg.py] *)

(** ** Label maps *)

(** X3. Up to 255 steps no pixel is labelled 0 and no label exceeds [steps] in
    magnitude. *)
Theorem X3_labels_in_range_upto_255 x_low x_high coef intercept h w steps :
  (0 < steps <= 255)%Z ->
  ∃ labels, get_labels x_low x_high coef intercept (h, w) steps = Ok labels ∧
    shaped2 h w labels ∧
    ∀ i j, i < h -> j < w ->
      ∃ v, get2 labels i j = Some v ∧ v ≠ 0%Z ∧ (- steps <= v <= steps)%Z.
Proof.
  intros Hsteps.
  destruct (get_labels_range x_low x_high coef intercept h w steps Hsteps)
    as (labels & H & Hs & Hl).
  exists labels. split; [done|]. split; [done|]. intros i j Hi Hj.
  destruct (Hl i j Hi Hj) as (v & Hv & Hb). exists v. split; [done|]. lia.
Qed.

Lemma X3_labels_in_range_upto_255_witness :
  (0 < 200 <= 255)%Z ∧
  ∃ labels, get_labels 0 1 1 0 (2, 2) 200 = Ok labels ∧ shaped2 2 2 labels.
Proof.
  split; [lia|].
  destruct (X3_labels_in_range_upto_255 0 1 1 0 2 2 200 ltac:(lia))
    as (labels & H & Hs & _).
  exists labels. split; [exact H|exact Hs].
Defined.

(** ** Rows of the PVG matrix *)

Lemma label_of_bin_range steps b :
  (0 <= steps)%Z -> b < Z.to_nat steps * 2 ->
  (1 <= Z.abs (label_of_bin steps b) <= steps)%Z.
Proof.
  intros Hs Hb. unfold label_of_bin.
  destruct (Z.ltb_spec (Z.of_nat b) steps); lia.
Qed.

Lemma count_pixels_mono h w (P Q : nat -> nat -> bool) :
  (∀ y x, y < h -> x < w -> P y x = true -> Q y x = true) ->
  (count_pixels h w P <= count_pixels h w Q)%Z.
Proof.
  intros HPQ. unfold count_pixels. apply inj_le.
  assert (∀ l : list nat, (∀ y, y ∈ l -> y < h) ->
    sum_list ((fun y => length (filter (fun x => P y x) (seq 0 w))) <$> l)
      <= sum_list ((fun y => length (filter (fun x => Q y x) (seq 0 w))) <$> l))
    as Hsum.
  { induction l as [|y l IH]; intros Hl; [done|].
    rewrite !fmap_cons, !sum_list_cons.
    apply Nat.add_le_mono; [|apply IH; intros; apply Hl; by right].
    rewrite !length_filter_sum.
    assert (y < h) as Hy by (apply Hl; left).
    assert (∀ l' : list nat, (∀ x, x ∈ l' -> x < w) ->
      sum_list ((fun x => if P y x then 1 else 0) <$> l')
        <= sum_list ((fun x => if Q y x then 1 else 0) <$> l')) as Hrow.
    { induction l' as [|x l' IH']; intros Hl'; [done|].
      rewrite !fmap_cons, !sum_list_cons.
      apply Nat.add_le_mono; [|apply IH'; intros; apply Hl'; by right].
      destruct (P y x) eqn:E; [|destruct (Q y x); lia].
      assert (x ∈ x :: l') as Hin by left.
      rewrite (HPQ y x Hy (Hl' x Hin) E). lia. }
    apply Hrow. intros x Hx%elem_of_seq. lia. }
  apply Hsum. intros y Hy%elem_of_seq. lia.
Qed.

(** X4. Whatever the labels are, the row of a frame adds up to the number
    of segmented pixels whose label is that of some bin, a nonzero label of
    magnitude at most [steps]; it never exceeds the number of segmented
    pixels. *)
Theorem X4_row_sum_counts_binned_pixels T h w (s : array3 bool)
    (labels : array3 Z) steps t f lab :
  shaped3 T h w s -> shaped3 T h w labels -> (0 <= steps)%Z ->
  s !! t = Some f -> labels !! t = Some lab ->
  ∃ pvg row, compute_pvg s labels steps = Ok pvg ∧ pvg !! t = Some row ∧
    sum_Z row = count_pixels h w (hit_any f lab steps) ∧
    (sum_Z row <= popcount h w f)%Z.
Proof.
  intros Hs Hl Hsteps Hf Hlab.
  destruct (compute_pvg_Ok T h w s labels steps Hs Hl Hsteps) as (pvg & Hp & Hsh & Hc).
  pose proof (lookup_lt_Some _ _ _ Hf) as Ht. destruct Hs as [HsT _].
  destruct Hsh as [HpT Hrows].
  destruct (lookup_lt_is_Some_2 pvg t) as [row Hrow]; [lia|].
  exists pvg, row. split; [done|]. split; [done|].
  assert (sum_Z row = count_pixels h w (hit_any f lab steps)) as Hsum.
  { rewrite Forall_lookup in Hrows. pose proof (Hrows _ _ Hrow) as Hlen.
    set (n2 := Z.to_nat steps * 2) in *.
    pose proof (shaped3_lookup _ _ _ _ _ _ Hl Hlab) as Hlabs.
    rewrite (list_eq_seq row n2
      (fun b => count_pixels h w (hit f lab (label_of_bin steps b)))); [|done|].
    2:{ intros b Hb. specialize (Hc t b f lab Hf Hlab Hb).
        unfold get2 in Hc. rewrite Hrow in Hc. done. }
    unfold count_pixels.
    rewrite sum_Z_fmap_of_nat. f_equal.
    rewrite (sum_list_swap (fun b y =>
      length (filter (fun x => hit f lab (label_of_bin steps b) y x) (seq 0 w)))).
    apply sum_list_ext. intros y Hy%elem_of_seq.
    rewrite (sum_list_ext _ (fun b => sum_list
      ((fun x => if hit f lab (label_of_bin steps b) y x then 1 else 0) <$> seq 0 w)))
      by (intros; apply length_filter_sum).
    rewrite (sum_list_swap (fun b x =>
      if hit f lab (label_of_bin steps b) y x then 1 else 0)).
    rewrite length_filter_sum. apply sum_list_ext. intros x Hx%elem_of_seq.
    destruct (shaped2_get2 _ _ _ y x Hlabs) as [v Hv]; [lia..|].
    unfold hit_any. rewrite Hv. simpl.
    destruct (bool_decide (get2 f y x = Some true)) eqn:E.
    - apply bool_decide_eq_true in E. cbn [andb].
      destruct (in_bins steps v) eqn:Ein.
      + unfold in_bins in Ein. apply andb_true_iff in Ein as [E1 E2].
        apply Z.leb_le in E1, E2.
        destruct (label_of_bin_unique steps v ltac:(lia)) as (b0 & Hb0 & Hb).
        rewrite (sum_indicator_unique _ b0).
        * by rewrite decide_True.
        * intros b Hlt. rewrite <- (Hb b Hlt). unfold hit. apply bool_decide_ext.
          rewrite Hv. split; [by intros [_ [= ->]]|by intros ->].
      + rewrite (sum_list_ext _ (fun _ => 0)); [apply sum_list_zero|].
        intros b Hb%elem_of_seq. unfold hit. rewrite bool_decide_eq_false_2; [done|].
        intros [_ Heq]. rewrite Hv in Heq. injection Heq as ->.
        pose proof (label_of_bin_range steps b Hsteps ltac:(lia)) as Hr.
        unfold in_bins in Ein. apply andb_false_iff in Ein as [E1|E1];
          apply Z.leb_gt in E1; lia.
    - apply bool_decide_eq_false in E. cbn [andb].
      rewrite (sum_list_ext _ (fun _ => 0)); [apply sum_list_zero|].
      intros b _. unfold hit. rewrite bool_decide_eq_false_2; [done|].
      by intros [? _]. }
  split; [done|]. rewrite Hsum. unfold popcount. apply count_pixels_mono.
  intros y x _ _. unfold hit_any. by intros [? _]%andb_true_iff.
Qed.

Lemma X4_row_sum_counts_binned_pixels_witness :
  ∃ pvg row, compute_pvg [[[true; true]]] [[[1; 5]]]%Z 2 = Ok pvg ∧
    pvg !! 0 = Some row ∧ sum_Z row = 1%Z.
Proof.
  destruct (X4_row_sum_counts_binned_pixels 1 1 2 [[[true; true]]] [[[1; 5]]]%Z 2 0
    [[true; true]] [[1; 5]]%Z) as (pvg & row & H & Hrow & Hsum & _).
  - split; [done|]. repeat constructor.
  - split; [done|]. repeat constructor.
  - lia.
  - done.
  - done.
  - exists pvg, row. split; [exact H|]. split; [exact Hrow|].
    rewrite Hsum. vm_compute. reflexivity.
Defined.

(** X5. With at most 255 steps and one label map of [get_labels] per frame,
    every row of the PVG matrix adds up to the number of segmented pixels
    of its frame. *)
Theorem X5_row_sum_is_popcount_upto_255 T h w (s : array3 bool)
    (labels : array3 Z) steps :
  shaped3 T h w s -> length labels = T -> (0 < steps <= 255)%Z ->
  (∀ t lab, labels !! t = Some lab ->
     ∃ x_low x_high coef intercept,
       get_labels x_low x_high coef intercept (h, w) steps = Ok lab) ->
  ∃ pvg, compute_pvg s labels steps = Ok pvg ∧
    ∀ t f, s !! t = Some f ->
      ∃ row, pvg !! t = Some row ∧ sum_Z row = popcount h w f.
Proof. apply pvg_row_sum_classified. Qed.

Lemma X5_row_sum_is_popcount_upto_255_witness :
  ∃ lab pvg row, get_labels 0 1 1 0 (1, 1) 2 = Ok lab ∧
    compute_pvg [[[true]]] [lab] 2 = Ok pvg ∧
    pvg !! 0 = Some row ∧ sum_Z row = 1%Z.
Proof.
  destruct (get_labels_Ok 0 1 1 0 1 1 2) as (lab & Hlab & _); [lia|].
  destruct (X5_row_sum_is_popcount_upto_255 1 1 1 [[[true]]] [lab] 2)
    as (pvg & Hp & Hrow).
  - split; [done|]. repeat constructor.
  - done.
  - lia.
  - intros [|t] lab' Ht; [|done]. injection Ht as <-. by exists 0%R, 1%R, 1%R, 0%R.
  - destruct (Hrow 0 [[true]] eq_refl) as (row & Hr & Hsum).
    exists lab, pvg, row. split; [exact Hlab|]. split; [exact Hp|].
    split; [exact Hr|]. rewrite Hsum. vm_compute. reflexivity.
Defined.

(** ** Frames are processed one by one *)

Lemma array2_ext {A} h w (a b : array2 A) :
  shaped2 h w a -> shaped2 h w b ->
  (∀ i j, i < h -> j < w -> get2 a i j = get2 b i j) -> a = b.
Proof.
  intros [Ha Hra] [Hb Hrb] Heq. apply list_eq_same_length with h; [done..|].
  intros i ra rb Hi Hia Hib.
  rewrite Forall_lookup in Hra. rewrite Forall_lookup in Hrb.
  apply list_eq_same_length with w; [by eapply Hrb|by eapply Hra|].
  intros j x y Hj Hx Hy. specialize (Heq i j Hi Hj).
  unfold get2 in Heq. rewrite Hia, Hib in Heq. simpl in Heq. congruence.
Qed.

Lemma shaped3_app {A} n1 n2 h w (a1 a2 : array3 A) :
  shaped3 n1 h w a1 -> shaped3 n2 h w a2 -> shaped3 (n1 + n2) h w (a1 ++ a2).
Proof.
  intros [H1 F1] [H2 F2]. split; [rewrite length_app; lia|].
  by apply Forall_app.
Qed.

Lemma shaped2_app {A} n1 n2 w (a1 a2 : array2 A) :
  shaped2 n1 w a1 -> shaped2 n2 w a2 -> shaped2 (n1 + n2) w (a1 ++ a2).
Proof.
  intros [H1 F1] [H2 F2]. split; [rewrite length_app; lia|].
  by apply Forall_app.
Qed.

(** X6. The frames do not influence one another: the PVG matrix of two
    stacks put one after the other is the matrix of the first followed by
    the matrix of the second. *)
Theorem X6_compute_pvg_app T1 T2 h w (s1 s2 : array3 bool)
    (l1 l2 : array3 Z) steps :
  shaped3 T1 h w s1 -> shaped3 T1 h w l1 ->
  shaped3 T2 h w s2 -> shaped3 T2 h w l2 -> (0 <= steps)%Z ->
  ∃ p1 p2, compute_pvg s1 l1 steps = Ok p1 ∧ compute_pvg s2 l2 steps = Ok p2 ∧
    compute_pvg (s1 ++ s2) (l1 ++ l2) steps = Ok (p1 ++ p2).
Proof.
  intros Hs1 Hl1 Hs2 Hl2 Hsteps.
  destruct (compute_pvg_Ok T1 h w s1 l1 steps Hs1 Hl1 Hsteps) as (p1 & Hp1 & Hsh1 & Hc1).
  destruct (compute_pvg_Ok T2 h w s2 l2 steps Hs2 Hl2 Hsteps) as (p2 & Hp2 & Hsh2 & Hc2).
  destruct (compute_pvg_Ok (T1 + T2) h w (s1 ++ s2) (l1 ++ l2) steps)
    as (p & Hp & Hsh & Hc); [by apply shaped3_app..|done|].
  exists p1, p2. split; [done|]. split; [done|]. rewrite Hp. f_equal.
  apply (array2_ext (T1 + T2) (Z.to_nat steps * 2)); [done|by apply shaped2_app|].
  intros t b Ht Hb.
  destruct Hs1 as [Hs1 _], Hl1 as [Hl1 _], Hs2 as [Hs2 _], Hl2 as [Hl2 _].
  destruct Hsh1 as [Hlen1 _].
  destruct (decide (t < T1)) as [Hlt|Hge].
  - destruct (lookup_lt_is_Some_2 s1 t) as [f Hf]; [lia|].
    destruct (lookup_lt_is_Some_2 l1 t) as [lab Hlab]; [lia|].
    rewrite (Hc t b f lab); [| by rewrite lookup_app_l by lia..|done].
    unfold get2 at 1. rewrite lookup_app_l by lia.
    symmetry. by apply Hc1.
  - destruct (lookup_lt_is_Some_2 s2 (t - T1)) as [f Hf]; [lia|].
    destruct (lookup_lt_is_Some_2 l2 (t - T1)) as [lab Hlab]; [lia|].
    rewrite (Hc t b f lab);
      [| rewrite lookup_app_r by lia; by replace (t - length _) with (t - T1) by lia..
       |done].
    unfold get2 at 1. rewrite lookup_app_r by lia.
    replace (t - length p1) with (t - T1) by lia.
    symmetry. by apply Hc2.
Qed.

Lemma X6_compute_pvg_app_witness :
  compute_pvg ([[[true]]] ++ [[[false]]]) ([[[1]]] ++ [[[-1]]])%Z 1
    = Ok ([[1; 0]] ++ [[0; 0]])%Z.
Proof.
  destruct (X6_compute_pvg_app 1 1 1 1 [[[true]]] [[[false]]] [[[1]]]%Z [[[-1]]]%Z 1)
    as (p1 & p2 & H1 & H2 & H).
  - split; [done|]. repeat constructor.
  - split; [done|]. repeat constructor.
  - split; [done|]. repeat constructor.
  - split; [done|]. repeat constructor.
  - lia.
  - vm_compute in H1. vm_compute in H2.
    injection H1 as <-. injection H2 as <-. exact H.
Defined.

(** ** Edge cases of [compute_pvg] *)

(** X7. When the label stack has fewer frames than the segmentation stack
    and there is at least one step, [compute_pvg] raises [IndexError] and
    returns no matrix, not even the rows of the frames that have labels. *)
Theorem X7_compute_pvg_missing_labels T T' h w (s : array3 bool)
    (labels : array3 Z) steps :
  shaped3 T h w s -> shaped3 T' h w labels -> T' < T -> (0 < steps)%Z ->
  compute_pvg s labels steps = Raise IndexError.
Proof.
  intros Hs Hlabels HT Hsteps. unfold compute_pvg.
  rewrite (proj2 (Z.ltb_ge _ _)) by lia.
  remember (Z.to_nat steps) as n eqn:Hn.
  pose proof (all_steps_length steps ltac:(lia)) as Hal. rewrite <- Hn in Hal.
  assert (∀ b, b < n * 2 -> all_steps steps !! b = Some (label_of_bin steps b)) as Hab.
  { intros b Hb. apply all_steps_lookup; [lia|]. by rewrite <- Hn. }
  destruct Hs as [HsT Hsf]. pose proof Hlabels as [HlT _].
  unfold for_range at 1. rewrite HsT.
  replace T with (T' + (T - T')) by lia. rewrite seq_app, for_in_app.
  match goal with |- context [for_in (seq 0 T') ?body ?st] =>
    destruct (for_in_inv (fun (_ : nat) (q : array2 Z * array3 bool) =>
      length q.2 = n * 2) (seq 0 T') body st) as ([pvg l] & -> & HP) end.
  - apply length_replicate.
  - intros k t [pvg l] Hk Hl. simpl in Hl.
    apply lookup_seq in Hk as [-> Hk]. simpl.
    destruct (lookup_lt_is_Some_2 s k) as [f Hf]; [lia|].
    destruct (lookup_lt_is_Some_2 labels k) as [lab Hlab]; [lia|].
    assert (shaped2 h w f) as Hfs by (rewrite Forall_lookup in Hsf; eauto).
    pose proof (shaped3_lookup _ _ _ _ _ _ Hlabels Hlab) as Hlabs.
    rewrite (index_Ok _ _ _ Hf). simpl.
    match goal with |- context [for_in ?xs ?body ?st] =>
      destruct (for_in_inv (fun k (l : array3 bool) =>
        length l = n * 2 ∧
        ∀ b, b < k -> l !! b = Some (eq_scalar lab (label_of_bin steps b)))
        xs body st) as (l' & -> & Hl'1 & Hl'2) end.
    { split; [done|]. intros; lia. }
    { intros k' [i j] l0 Hk' [Hl0 Hprev].
      rewrite list_lookup_imap in Hk'.
      destruct (all_steps steps !! k') as [jk|] eqn:Ejk; simplify_eq/=.
      pose proof (lookup_lt_Some _ _ _ Ejk) as Hklt. rewrite Hal in Hklt.
      rewrite Hab in Ejk by done. simplify_eq.
      rewrite (index_Ok _ _ _ Hlab). simpl. eexists. split; [done|].
      split; [by rewrite length_insert|].
      intros b Hb. destruct (decide (b = i)) as [->|Hne].
      - apply list_lookup_insert_eq. lia.
      - rewrite list_lookup_insert_ne by done. apply Hprev. lia. }
    rewrite length_imap, Hal in Hl'2. simpl.
    match goal with |- context [for_range ?m ?body ?st] =>
      destruct (for_range_inv (fun (_ : nat) (_ : array2 Z) => True)
        m body st) as (pvg' & -> & _) end.
    { done. }
    { intros b pvg0 Hb _.
      rewrite (index_Ok _ _ _ (Hl'2 b Hb)). simpl.
      rewrite (and_sum_count h w) by done. simpl. by eexists. }
    simpl. by eexists.
  - simpl. destruct (T - T') as [|m] eqn:Em; [lia|].
    rewrite <- cons_seq, for_in_cons.
    destruct (lookup_lt_is_Some_2 s T') as [f Hf]; [lia|].
    rewrite (index_Ok _ _ _ Hf). simpl.
    destruct (all_steps steps) as [|j0 js] eqn:Eas; [simpl in Hal; lia|].
    assert (index labels T' = Raise IndexError) as Hraise
      by (unfold index; by rewrite lookup_ge_None_2 by lia).
    simpl. by rewrite Hraise.
Qed.

Lemma X7_compute_pvg_missing_labels_witness :
  compute_pvg [[[true]]; [[true]]] [[[1%Z]]] 1 = Raise IndexError.
Proof.
  apply (X7_compute_pvg_missing_labels 2 1 1 1).
  - split; [done|]. repeat constructor.
  - split; [done|]. repeat constructor.
  - lia.
  - lia.
Defined.

(** X8. With [steps = 0] the label stack is not looked at: whatever it
    holds, the result has one empty row per frame. *)
Theorem X8_compute_pvg_zero_steps (s : array3 bool) (labels : array3 Z) :
  compute_pvg s labels 0 = Ok (replicate (length s) []).
Proof.
  unfold compute_pvg. simpl.
  match goal with |- context [for_range ?m ?body ?st] =>
    destruct (for_range_inv (fun (_ : nat) (st' : array2 Z * array3 bool) =>
      st' = st) m body st) as (st' & -> & ->) end.
  - done.
  - intros t [pvg l] Ht Heq.
    destruct (lookup_lt_is_Some_2 s t) as [f Hf]; [lia|].
    rewrite (index_Ok _ _ _ Hf). simpl. by eexists.
  - done.
Qed.

(** ** The orthogonal lines *)

Lemma tan_atan_orth (c : R) : c ≠ 0%R -> (tan (atan c - PI / 2) * c = -1)%R.
Proof.
  intros Hc. pose proof (atan_bound c) as Hb.
  assert (0 < cos (atan c))%R as Hcos by (apply cos_gt_0; lra).
  pose proof (tan_atan c) as Ht. unfold tan in Ht.
  assert (sin (atan c) = c * cos (atan c))%R as Hsin.
  { rewrite <- Ht at 2. field. lra. }
  unfold tan. rewrite sin_minus, cos_minus, sin_PI2, cos_PI2.
  rewrite !Rmult_0_r, !Rmult_1_r, Rplus_0_l, Rminus_0_l.
  rewrite Hsin. field. split; lra.
Qed.

(** X9. For an axis that is not horizontal the lines built by
    [_find_orthogonal_points] are perpendicular to it (the product of the
    slopes is -1), and each of them meets the axis at its sample point. *)
Theorem X9_orthogonal_lines_perpendicular x_low x_high coef intercept steps
    xs ys coef_orth intercepts_orth :
  coef ≠ 0%R ->
  _find_orthogonal_points x_low x_high coef intercept steps
    = Ok (xs, ys, coef_orth, intercepts_orth) ->
  (coef_orth * coef = -1)%R ∧
  length ys = length xs ∧ length intercepts_orth = length xs ∧
  ∀ k x, xs !! k = Some x ->
    ∃ y b, ys !! k = Some y ∧ intercepts_orth !! k = Some b ∧
      (y = coef * x + intercept)%R ∧ (y = coef_orth * x + b)%R.
Proof.
  intros Hc H. unfold _find_orthogonal_points in H.
  destruct (linspace x_low x_high steps) as [xs'|] eqn:E; simplify_eq/=.
  split; [rewrite np_tan_orth by done; by apply tan_atan_orth|].
  split; [by rewrite length_fmap|].
  split; [rewrite length_zip_with, length_fmap; lia|].
  intros k x Hx. eexists _, _.
  split; [by rewrite list_lookup_fmap, Hx|].
  split; [by rewrite lookup_zip_with, list_lookup_fmap, Hx|].
  split; lra.
Qed.

Lemma X9_orthogonal_lines_perpendicular_witness :
  ∃ xs ys coef_orth intercepts_orth,
    _find_orthogonal_points 0 1 1 0 2 = Ok (xs, ys, coef_orth, intercepts_orth) ∧
    (coef_orth * 1 = -1)%R.
Proof.
  destruct (find_orthogonal_points_Ok 0 1 1 0 2 ltac:(lia))
    as (xs & ys & io & H & _).
  exists xs, ys, (np_tan (atan 1 - PI / 2)), io. split; [exact H|].
  apply (X9_orthogonal_lines_perpendicular 0 1 1 0 2 xs ys _ io ltac:(lra) H).
Defined.

(** ** A label does not depend on the size of the image *)

(** X10. The label of a pixel is the same in every image that has the
    pixel: the label map of a smaller image is the corner of the label map
    of a larger one. *)
Theorem X10_get_labels_crop x_low x_high coef intercept h w h' w' steps
    small large i j :
  h <= h' -> w <= w' -> i < h -> j < w ->
  get_labels x_low x_high coef intercept (h, w) steps = Ok small ->
  get_labels x_low x_high coef intercept (h', w') steps = Ok large ->
  get2 small i j = get2 large i j.
Proof.
  intros Hh Hw Hi Hj Hsmall Hlarge.
  destruct (Z_lt_le_dec 0 steps) as [Hsteps|Hsteps].
  - destruct (get_labels_Ok x_low x_high coef intercept h w steps Hsteps)
      as (a & Ha & _ & Hca).
    destruct (get_labels_Ok x_low x_high coef intercept h' w' steps Hsteps)
      as (b & Hb & _ & Hcb).
    rewrite Hsmall in Ha. injection Ha as <-.
    rewrite Hlarge in Hb. injection Hb as <-.
    destruct (Hca i j Hi Hj) as (c & Hc & Hmin & ->).
    destruct (Hcb i j ltac:(lia) ltac:(lia)) as (c' & Hc' & Hmin' & ->).
    destruct (Hmin c' Hc') as [? ?], (Hmin' c Hc) as [? ?].
    destruct (Nat.lt_trichotomy c c') as [Hlt|[->|Hlt]]; [|done|].
    + assert (Rabs (orth_distance x_low x_high coef intercept (Z.to_nat steps) c' i j)
        < Rabs (orth_distance x_low x_high coef intercept (Z.to_nat steps) c i j))%R
        by auto. lra.
    + assert (Rabs (orth_distance x_low x_high coef intercept (Z.to_nat steps) c i j)
        < Rabs (orth_distance x_low x_high coef intercept (Z.to_nat steps) c' i j))%R
        by auto. lra.
  - destruct (Z.eq_dec steps 0%Z) as [->|Hne].
    + rewrite get_labels_zero in Hsmall by lia. done.
    + rewrite get_labels_neg in Hsmall by lia. done.
Qed.

Lemma X10_get_labels_crop_witness :
  ∃ small large, get_labels 0 1 1 0 (1, 1) 2 = Ok small ∧
    get_labels 0 1 1 0 (2, 3) 2 = Ok large ∧
    get2 small 0 0 = get2 large 0 0.
Proof.
  destruct (get_labels_Ok 0 1 1 0 1 1 2) as (small & Hs & _); [lia|].
  destruct (get_labels_Ok 0 1 1 0 2 3 2) as (large & Hl & _); [lia|].
  exists small, large. split; [exact Hs|]. split; [exact Hl|].
  apply (X10_get_labels_crop 0 1 1 0 1 1 2 3 2 small large 0 0);
    [lia | lia | lia | lia | exact Hs | exact Hl].
Defined.

(** ** Images without pixels *)

Lemma find_parts_no_pixel h w (lp : array3 R) (lr : array2 R) :
  h = 0 ∨ w = 0 -> _find_parts (h, w) lp lr = Ok (full2 h w 0%Z).
Proof.
  intros Hhw. unfold _find_parts. cbn [fst snd].
  match goal with |- for_range ?m ?body ?st = _ =>
    destruct (for_range_inv (fun (_ : nat) (q : array2 Z) => q = st) m body st)
      as (st' & -> & ->) end; [done| |done].
  intros i labels Hi ->. destruct Hhw as [->| ->]; [lia|].
  by eexists.
Qed.

(** X11. On an image without pixels (no rows, or rows without columns)
    [get_labels] returns the empty label map for every [steps >= 0], also
    for [steps = 0]. *)
Theorem X11_get_labels_no_pixel x_low x_high coef intercept h w steps :
  (0 <= steps)%Z -> h = 0 ∨ w = 0 ->
  get_labels x_low x_high coef intercept (h, w) steps = Ok (replicate h []).
Proof.
  intros Hsteps Hhw. unfold get_labels.
  destruct (find_orthogonal_points_Ok x_low x_high coef intercept steps Hsteps)
    as (xs & ys & io & -> & _).
  destruct (create_maps_single h w coef intercept) as (plane & Hp & _).
  cbn [mbind result_bind]. rewrite Hp. cbn [mbind result_bind].
  rewrite find_parts_no_pixel by done. f_equal. unfold full2.
  destruct Hhw as [->| ->]; done.
Qed.

Lemma X11_get_labels_no_pixel_witness :
  get_labels 0 1 1 0 (3, 0) 0 = Ok [[]; []; []].
Proof.
  apply (X11_get_labels_no_pixel 0 1 1 0 3 0 0); [lia | by right].
Defined.

(** ** Calling [compute_pvg] again *)

(** X12. Two calls of [compute_pvg] on the same arrays return two distinct
    objects that hold the same matrix; the second call changes neither the
    result of the first nor any object that existed before. *)
Theorem X12_compute_pvg_h_twice (h0 : gmap loc ndarray) s labels sv lv steps pvg :
  h0 !! s = Some (Bool3 sv) -> h0 !! labels = Some (Int3 lv) ->
  compute_pvg sv lv steps = Ok pvg ->
  ∃ p1 p2 h2,
    (p1 ← compute_pvg_h s labels steps;
     p2 ← compute_pvg_h s labels steps;
     mret (p1, p2)) h0 = (Ok (p1, p2), h2) ∧
    p1 ≠ p2 ∧ (p1 ∉ dom h0) ∧ (p2 ∉ dom h0) ∧
    h2 !! p1 = Some (Int2 pvg) ∧ h2 !! p2 = Some (Int2 pvg) ∧
    keeps (dom h0) h0 h2.
Proof.
  intros Hs Hl Hpvg.
  pose proof (compute_pvg_h_spec h0 s labels sv lv steps Hs Hl) as H1.
  rewrite Hpvg in H1. destruct H1 as (p1 & h1 & Hrun1 & Hp1).
  destruct (safe_compute_pvg_h (dom h0) s labels steps h0) as [Hk1 Hf1]; [done|].
  rewrite Hrun1 in Hk1, Hf1. simpl in Hk1, Hf1.
  specialize (Hf1 p1 eq_refl).
  assert (h1 !! s = Some (Bool3 sv)) as Hs1
    by (rewrite Hk1; [done|by apply elem_of_dom]).
  assert (h1 !! labels = Some (Int3 lv)) as Hl1
    by (rewrite Hk1; [done|by apply elem_of_dom]).
  pose proof (compute_pvg_h_spec h1 s labels sv lv steps Hs1 Hl1) as H2.
  rewrite Hpvg in H2. destruct H2 as (p2 & h2 & Hrun2 & Hp2).
  destruct (safe_compute_pvg_h (dom h1) s labels steps h1) as [Hk2 Hf2]; [done|].
  rewrite Hrun2 in Hk2, Hf2. simpl in Hk2, Hf2.
  specialize (Hf2 p2 eq_refl).
  assert (dom h0 ⊆ dom h1) as Hsub by (by apply (keeps_dom (dom h0) h0)).
  assert (p1 ∈ dom h1) as Hin1 by (by apply elem_of_dom).
  exists p1, p2, h2. split.
  { rewrite (run_bind _ _ _ _ _ Hrun1), (run_bind _ _ _ _ _ Hrun2). done. }
  split; [by intros ->|]. split; [done|].
  split; [by intros ?%Hsub|].
  split; [by rewrite Hk2|]. split; [done|].
  intros l Hl0. rewrite Hk2 by by apply Hsub. by apply Hk1.
Qed.

Lemma X12_compute_pvg_h_twice_witness :
  ∃ p1 p2 h2,
    (p1 ← compute_pvg_h 1%positive 2%positive 1;
     p2 ← compute_pvg_h 1%positive 2%positive 1;
     mret (p1, p2))
      (<[1%positive := Bool3 [[[true]]]]> (<[2%positive := Int3 [[[1%Z]]]]> ∅))
      = (Ok (p1, p2), h2) ∧
    p1 ≠ p2 ∧ h2 !! p1 = Some (Int2 [[1; 0]]%Z) ∧ h2 !! p2 = Some (Int2 [[1; 0]]%Z).
Proof.
  destruct (X12_compute_pvg_h_twice
    (<[1%positive := Bool3 [[[true]]]]> (<[2%positive := Int3 [[[1%Z]]]]> ∅))
    1%positive 2%positive [[[true]]] [[[1%Z]]] 1 [[1; 0]]%Z)
    as (p1 & p2 & h2 & Hrun & Hne & _ & _ & H1 & H2 & _).
  - reflexivity.
  - reflexivity.
  - reflexivity.
  - exists p1, p2, h2. split; [exact Hrun|]. split; [exact Hne|].
    split; [exact H1|exact H2].
Defined.

(** ** Mirrored labels *)

Lemma count_pixels_ext h w (P Q : nat -> nat -> bool) :
  (∀ y x, y < h -> x < w -> P y x = Q y x) ->
  count_pixels h w P = count_pixels h w Q.
Proof.
  intros HPQ. apply Z.le_antisymm; apply count_pixels_mono;
    intros y x Hy Hx; by rewrite HPQ.
Qed.

Lemma label_of_bin_mirror steps b :
  b < Z.to_nat steps * 2 ->
  label_of_bin steps (Z.to_nat steps * 2 - 1 - b) = (- label_of_bin steps b)%Z.
Proof.
  intros Hb. unfold label_of_bin.
  destruct (Z.ltb_spec (Z.of_nat (Z.to_nat steps * 2 - 1 - b)) steps),
           (Z.ltb_spec (Z.of_nat b) steps); lia.
Qed.

Lemma shaped2_fmap_row {A B} h w (g : list A -> list B) (a : array2 A) :
  (∀ r, length (g r) = length r) ->
  shaped2 h w a -> shaped2 h w (g <$> a).
Proof.
  intros Hg [Hl Hr]. split; [by rewrite length_fmap|].
  apply Forall_fmap. eapply Forall_impl; [done|]. simpl.
  intros r <-. apply Hg.
Qed.

(** X23. Negating every label (exchanging the two sides of the axis)
    mirrors the PVG matrix: each row comes out reversed. *)
Theorem X23_compute_pvg_mirror T h w (s : array3 bool) (labels : array3 Z) steps :
  shaped3 T h w s -> shaped3 T h w labels -> (0 <= steps)%Z ->
  ∃ pvg, compute_pvg s labels steps = Ok pvg ∧
    compute_pvg s (fmap (M := list) (fmap (M := list) (fmap (M := list) Z.opp)) labels) steps
      = Ok (reverse <$> pvg).
Proof.
  intros Hs Hl Hsteps.
  set (neg := fmap (M := list) (fmap (M := list) (fmap (M := list) Z.opp)) labels).
  assert (shaped3 T h w neg) as Hneg.
  { destruct Hl as [HlT Hlf]. split; [subst neg; by rewrite length_fmap|].
    subst neg. apply Forall_fmap. eapply Forall_impl; [exact Hlf|]. simpl.
    intros lab Hlab. apply shaped2_fmap_row; [|done].
    intros r. apply length_fmap. }
  destruct (compute_pvg_Ok T h w s labels steps Hs Hl Hsteps) as (pvg & Hp & Hsh & Hc).
  destruct (compute_pvg_Ok T h w s neg steps Hs Hneg Hsteps) as (pvg' & Hp' & Hsh' & Hc').
  exists pvg. split; [done|]. rewrite Hp'. f_equal.
  set (n2 := Z.to_nat steps * 2) in *.
  apply (array2_ext T n2); [done| |].
  { apply shaped2_fmap_row; [|done]. intros r. apply length_reverse. }
  intros t b Ht Hb.
  destruct Hs as [HsT Hsf]. pose proof Hl as [HlT Hlf].
  destruct (lookup_lt_is_Some_2 s t) as [f Hf]; [lia|].
  destruct (lookup_lt_is_Some_2 labels t) as [lab Hlab]; [lia|].
  assert (neg !! t = Some (fmap (M := list) (fmap (M := list) Z.opp) lab)) as Hnlab
    by (subst neg; by rewrite list_lookup_fmap, Hlab).
  rewrite (Hc' t b f _ Hf Hnlab Hb).
  destruct Hsh as [HpT Hrows].
  destruct (lookup_lt_is_Some_2 pvg t) as [row Hrow]; [lia|].
  rewrite Forall_lookup in Hrows. pose proof (Hrows _ _ Hrow) as Hlen.
  unfold get2. rewrite list_lookup_fmap, Hrow. simpl.
  rewrite reverse_lookup by lia. rewrite Hlen.
  replace (n2 - S b) with (n2 - 1 - b) by lia.
  pose proof (Hc t (n2 - 1 - b) f lab Hf Hlab ltac:(lia)) as Hcell.
  unfold get2 in Hcell. rewrite Hrow in Hcell. simpl in Hcell. rewrite Hcell.
  f_equal. apply count_pixels_ext. intros y x Hy Hx.
  unfold hit. apply bool_decide_ext.
  subst n2. rewrite label_of_bin_mirror by done.
  unfold get2. rewrite list_lookup_fmap.
  destruct (lab !! y) as [r|]; simpl; [|by split; intros [? ?]].
  rewrite list_lookup_fmap. destruct (r !! x) as [v|]; simpl;
    [|by split; intros [? ?]].
  split; intros [? Heq]; (split; [done|]); simplify_eq; f_equal; lia.
Qed.

Lemma X23_compute_pvg_mirror_witness :
  compute_pvg [[[true; true; false]]] [[[-1; -1; 1]]]%Z 1 = Ok [[0; 2]]%Z.
Proof.
  destruct (X23_compute_pvg_mirror 1 1 3 [[[true; true; false]]] [[[1; 1; -1]]]%Z 1)
    as (pvg & Hp & Hm).
  - split; [done|]. repeat constructor.
  - split; [done|]. repeat constructor.
  - lia.
  - vm_compute in Hp. injection Hp as <-. exact Hm.
Defined.

(** ** More label maps than frames *)

(** X24. Label maps beyond the last frame of the segmentation stack are
    never read: when the label stack has a map for every frame, appending
    further maps to it changes nothing, whether the call returns or
    raises. *)
Theorem X24_compute_pvg_extra_labels (s : array3 bool)
    (labels more : array3 Z) steps :
  length s <= length labels ->
  compute_pvg s (labels ++ more) steps = compute_pvg s labels steps.
Proof.
  intros Hlen. unfold compute_pvg.
  destruct (steps <? 0)%Z eqn:Esteps; [done|].
  destruct s as [|f0 s0] eqn:Es; [done|]. rewrite <- Es in *.
  assert (head (labels ++ more) = head labels) as ->.
  { destruct labels; [subst s; simpl in Hlen; lia|done]. }
  f_equal. unfold for_range.
  assert (∀ xs (st : array2 Z * array3 bool), (∀ t, t ∈ xs -> t < length s) ->
    for_in xs (fun frame '(pvg, l) =>
      f ← index s frame;
      l ← for_in (imap pair (all_steps steps)) (fun '(i, j) l =>
        lf ← index (labels ++ more) frame;
        Ok (<[i := eq_scalar lf j]> l)) l;
      pvg ← for_range (Z.to_nat steps * 2) (fun i pvg =>
        li ← index l i;
        c ← and_sum f li;
        Ok (set2 frame i c pvg)) pvg;
      Ok (pvg, l)) st
    = for_in xs (fun frame '(pvg, l) =>
      f ← index s frame;
      l ← for_in (imap pair (all_steps steps)) (fun '(i, j) l =>
        lf ← index labels frame;
        Ok (<[i := eq_scalar lf j]> l)) l;
      pvg ← for_range (Z.to_nat steps * 2) (fun i pvg =>
        li ← index l i;
        c ← and_sum f li;
        Ok (set2 frame i c pvg)) pvg;
      Ok (pvg, l)) st) as Hloop.
  { induction xs as [|t xs IH]; intros [pvg l] Hxs; [done|].
    rewrite !for_in_cons.
    assert (t < length s) as Ht by (apply Hxs; left).
    assert (index (labels ++ more) t = index labels t) as Hidx
      by (unfold index; by rewrite lookup_app_l by lia).
    rewrite Hidx.
    match goal with |- ?a ≫= _ = ?a ≫= _ => destruct a as [st'|]; [|done] end.
    cbn [mbind result_bind]. apply IH. intros; apply Hxs; by right. }
  apply Hloop. intros t Ht%elem_of_seq. lia.
Qed.

Lemma X24_compute_pvg_extra_labels_witness :
  compute_pvg [[[true]]] ([[[1%Z]]] ++ [[[7%Z]]; [[8%Z]]]) 1
    = compute_pvg [[[true]]] [[[1%Z]]] 1.
Proof.
  apply (X24_compute_pvg_extra_labels [[[true]]] [[[1%Z]]]). simpl. lia.
Defined.

(** * Properties of [audio.py] *)

(** ** Python indexing and slicing *)


Lemma loop_from_empty {St} start stop (body : nat -> St -> St) st :
  stop <= start -> loop_from start stop body st = st.
Proof.
  intros H. unfold loop_from. by replace (stop - start) with 0 by lia.
Qed.

Lemma slice_lookup {A} (x : list A) lo hi k :
  slice x lo hi !! k = if decide (lo + k < hi) then x !! (lo + k) else None.
Proof.
  unfold slice. rewrite lookup_drop.
  destruct (decide (lo + k < hi)).
  - by rewrite lookup_take_lt.
  - apply lookup_take_ge. lia.
Qed.

Lemma slice_length {A} (x : list A) lo hi :
  hi <= length x -> length (slice x lo hi) = hi - lo.
Proof. intros H. unfold slice. rewrite length_drop, length_take. lia. Qed.

Lemma py_slice_from_last {A} (a : list A) (n : Z) :
  (0 < n)%Z -> py_slice_from a (- n) = drop (length a - Z.to_nat n) a.
Proof.
  intros Hn. unfold py_slice_from.
  rewrite (proj2 (Z.ltb_lt _ _)) by lia. f_equal. lia.
Qed.

Lemma py_slice_from_all {A} (a : list A) (n : Z) :
  n = 0%Z ∨ (Z.of_nat (length a) <= n)%Z -> py_slice_from a (- n) = a.
Proof.
  intros [->|Hn].
  - unfold py_slice_from. simpl. by replace (Z.to_nat _) with 0 by lia.
  - destruct (decide (n = 0%Z)) as [->|Hne].
    + unfold py_slice_from. simpl. by replace (Z.to_nat _) with 0 by lia.
    + rewrite py_slice_from_last by lia.
      by replace (length a - Z.to_nat n) with 0 by lia.
Qed.

Lemma py_index_Ok {A} (a : list A) (i : Z) x :
  py_index a i = Ok x ->
  ∃ k, a !! k = Some x ∧
    (Z.of_nat k = if (0 <=? i)%Z then i else (Z.of_nat (length a) + i))%Z.
Proof.
  unfold py_index, index. intros H.
  destruct (Z.leb_spec 0 i).
  - exists (Z.to_nat i). destruct (a !! Z.to_nat i); simplify_eq. split; [done|lia].
  - destruct (Z.leb_spec (- Z.of_nat (length a)) i); [|done].
    exists (Z.to_nat (Z.of_nat (length a) + i)).
    destruct (a !! _); simplify_eq. split; [done|lia].
Qed.

Lemma py_index_nat {A} (a : list A) (k : nat) x :
  a !! k = Some x -> py_index a (Z.of_nat k) = Ok x.
Proof.
  intros H. unfold py_index, index.
  rewrite (proj2 (Z.leb_le _ _)) by lia. by rewrite Nat2Z.id, H.
Qed.

Lemma py_index_beyond {A} (a : list A) (i : Z) :
  (Z.of_nat (length a) <= i)%Z -> py_index a i = Raise IndexError.
Proof.
  intros H. unfold py_index, index.
  rewrite (proj2 (Z.leb_le _ _)) by lia.
  by rewrite lookup_ge_None_2 by lia.
Qed.

(** ** [_rolling_std_numba] *)




(** X14. A signal with no more samples than the window has no complete
    window: the result is all zeros. *)
Theorem X14_rolling_std_short (x : list R) (window : nat) :
  length x <= window ->
  _rolling_std_numba x window = replicate (length x) 0%R.
Proof.
  intros H. unfold _rolling_std_numba. by rewrite loop_from_empty.
Qed.

Lemma X14_rolling_std_short_witness :
  _rolling_std_numba [1; 2; 3]%R 101 = [0; 0; 0]%R.
Proof. apply (X14_rolling_std_short [1; 2; 3]%R 101). simpl. lia. Defined.

(** ** [_findTriggerEnd] *)

Lemma foldl_Rmin_le (l : list R) (v : R) :
  (foldl Rmin v l <= v)%R ∧ ∀ u, u ∈ l -> (foldl Rmin v l <= u)%R.
Proof.
  revert v. induction l as [|w l IH]; intros v; simpl.
  - split; [lra|]. by intros u ?%elem_of_nil.
  - destruct (IH (Rmin v w)) as [H1 H2].
    pose proof (Rmin_l v w). pose proof (Rmin_r v w).
    split; [lra|]. intros u [->|Hu]%elem_of_cons; [lra|by apply H2].
Qed.

Lemma foldl_Rmax_ge (l : list R) (v : R) :
  (v <= foldl Rmax v l)%R ∧ ∀ u, u ∈ l -> (u <= foldl Rmax v l)%R.
Proof.
  revert v. induction l as [|w l IH]; intros v; simpl.
  - split; [lra|]. by intros u ?%elem_of_nil.
  - destruct (IH (Rmax v w)) as [H1 H2].
    pose proof (Rmax_l v w). pose proof (Rmax_r v w).
    split; [lra|]. intros u [->|Hu]%elem_of_cons; [lra|by apply H2].
Qed.

Lemma np_min_le (l : list R) lo u : np_min l = Ok lo -> u ∈ l -> (lo <= u)%R.
Proof.
  destruct l as [|v l]; [done|]. intros [= <-].
  destruct (foldl_Rmin_le l v) as [H1 H2].
  intros [->|Hu]%elem_of_cons; [done|by apply H2].
Qed.

Lemma np_max_ge (l : list R) hi u : np_max l = Ok hi -> u ∈ l -> (u <= hi)%R.
Proof.
  destruct l as [|v l]; [done|]. intros [= <-].
  destruct (foldl_Rmax_ge l v) as [H1 H2].
  intros [->|Hu]%elem_of_cons; [done|by apply H2].
Qed.

Lemma rolling_std_length (x : list R) (window : nat) :
  length (_rolling_std_numba x window) = length x.
Proof.
  unfold _rolling_std_numba, loop_from.
  generalize (seq window (length x - window)). intros l.
  assert (∀ (st : list R),
    length (foldl (fun st k =>
      <[(k - window / 2)%nat := np_std (slice x (k - window) k)]> st) st l)
    = length st) as H.
  { induction l as [|k l IH]; intros st; [done|].
    simpl. by rewrite IH, length_insert. }
  by rewrite H, length_replicate.
Qed.

Lemma py_slice_from_drop {A} (a : list A) (start : Z) :
  ∃ m, py_slice_from a start = drop m a.
Proof. by eexists. Qed.

Lemma py_index_raise {A} (a : list A) (i : Z) e :
  py_index a i = Raise e -> e = IndexError.
Proof.
  unfold py_index, index. intros H.
  repeat (case_match; simplify_eq); done.
Qed.

Section audio_properties.

Variable zscore : list R -> list R.
Variable find_peaks : list R -> option R -> option R -> list nat.

(** X15. Without z-scoring, and when the rolling standard deviation is
    not constant, the trace that [_findTriggerEnd] searches and returns has
    the length of the signal and lies between 0 and 1, and the index
    returned is the first peak found in it. *)
Theorem X15_findTriggerEnd_minmax (reference_signal : list R) (window : nat)
    (prominence : R) p std u v :
  u ∈ _rolling_std_numba reference_signal window ->
  v ∈ _rolling_std_numba reference_signal window -> u ≠ v ->
  _findTriggerEnd zscore find_peaks reference_signal window prominence false
    = Ok (Some (p, std)) ->
  length std = length reference_signal ∧
  (∀ c, c ∈ std -> (0 <= c <= 1)%R) ∧
  head (find_peaks std None (Some prominence)) = Some p.
Proof.
  intros Hu Hv Huv H. unfold _findTriggerEnd in H.
  destruct (np_min _) as [lo|] eqn:Elo; [|done].
  destruct (np_max _) as [hi|] eqn:Ehi; [|done].
  cbn [mbind result_bind] in H.
  set (t := (fun c => (c - lo) / (hi - lo))%R <$> _) in H.
  destruct (find_peaks t None (Some prominence)) as [|q peaks] eqn:Ep; [done|].
  injection H as <- <-. rewrite Ep.
  assert (lo < hi)%R as Hlt.
  { pose proof (np_min_le _ _ _ Elo Hu). pose proof (np_min_le _ _ _ Elo Hv).
    pose proof (np_max_ge _ _ _ Ehi Hu). pose proof (np_max_ge _ _ _ Ehi Hv).
    destruct (Rtotal_order u v) as [?|[?|?]]; [lra|done|lra]. }
  split; [subst t; by rewrite length_fmap, rolling_std_length|].
  split; [|done].
  intros c Hc. subst t. apply list_elem_of_fmap in Hc as (c0 & -> & Hc0).
  pose proof (np_min_le _ _ _ Elo Hc0). pose proof (np_max_ge _ _ _ Ehi Hc0).
  split.
  - apply Rmult_le_pos; [lra|]. left. apply Rinv_0_lt_compat. lra.
  - apply (Rmult_le_reg_r (hi - lo)); [lra|]. field_simplify; lra.
Qed.

(** ** [sync] *)

(** X16. When the peak finder reports no peak in the z-scored rolling
    standard deviation of the reference signal, [_findTriggerEnd] returns
    [False] and [sync] fails with [TypeError] on unpacking it. *)
Theorem X16_sync_no_trigger reference_signal audio_signal
    start_frame end_frame total_frames :
  find_peaks (zscore (_rolling_std_numba reference_signal 101)) None (Some 1%R)
    = [] ->
  sync zscore find_peaks reference_signal audio_signal
    start_frame end_frame total_frames = Raise TypeError.
Proof. intros H. unfold sync, _findTriggerEnd. simpl. by rewrite H. Qed.

(** X17. What [sync] returns is a run of consecutive samples of the audio
    signal, all of them recorded before the end of the trigger. *)
Theorem X17_sync_before_trigger reference_signal audio_signal
    start_frame end_frame total_frames out :
  sync zscore find_peaks reference_signal audio_signal
    start_frame end_frame total_frames = Ok out ->
  ∃ trigger_end std a,
    _findTriggerEnd zscore find_peaks reference_signal 101 1 true
      = Ok (Some (trigger_end, std)) ∧
    ∀ k x, out !! k = Some x ->
      a + k < trigger_end ∧ audio_signal !! (a + k) = Some x.
Proof.
  intros H. unfold sync in H.
  destruct (_findTriggerEnd _ _ _ _ _ _) as [[[p std]|]|] eqn:E; [|done..].
  cbn [mbind result_bind] in H.
  destruct (py_index _ (start_frame - 1)) as [a|]; [|done].
  destruct (py_index _ (end_frame - 1)) as [b|]; [|done].
  cbn [mbind result_bind] in H. injection H as <-.
  exists p, std, a. split; [done|]. intros k x Hk.
  rewrite slice_lookup in Hk. destruct (decide (a + k < b)); [|done].
  rewrite slice_lookup in Hk. simpl in Hk.
  destruct (decide (a + k < p)); [|done]. done.
Qed.

(** X18. [total_frames = 0] does not select zero frames: the slice
    [frame_idx[-0:]] is the whole array, so the call behaves as with any
    [total_frames] that is at least the number of frames detected. *)
Theorem X18_sync_total_frames_zero reference_signal audio_signal
    start_frame end_frame (N : Z) :
  (∀ trigger_end std,
     _findTriggerEnd zscore find_peaks reference_signal 101 1 true
       = Ok (Some (trigger_end, std)) ->
     (Z.of_nat (length (find_peaks
        (Ropp <$> zscore (slice reference_signal 0 trigger_end))
        (Some 1.5%R) None)) <= N)%Z) ->
  sync zscore find_peaks reference_signal audio_signal start_frame end_frame 0
  = sync zscore find_peaks reference_signal audio_signal start_frame end_frame N.
Proof.
  intros HN. unfold sync.
  destruct (_findTriggerEnd _ _ _ _ _ _) as [[[p std]|]|] eqn:E; [|done..].
  cbn [mbind result_bind].
  rewrite (py_slice_from_all _ 0) by by left.
  rewrite (py_slice_from_all _ N) by (right; by eapply HN).
  done.
Qed.

(** X19. Frames are counted from 1, and [start_frame = 0] is not refused:
    the index [-1] it gives denotes the last of the recorded frames. *)
Theorem X19_sync_start_frame_zero reference_signal audio_signal
    end_frame total_frames trigger_end std :
  _findTriggerEnd zscore find_peaks reference_signal 101 1 true
    = Ok (Some (trigger_end, std)) ->
  let recorded_frames :=
    py_slice_from
      (find_peaks (Ropp <$> zscore (slice reference_signal 0 trigger_end))
         (Some 1.5%R) None) (- total_frames) in
  recorded_frames ≠ [] ->
  sync zscore find_peaks reference_signal audio_signal 0 end_frame total_frames
  = sync zscore find_peaks reference_signal audio_signal
      (Z.of_nat (length recorded_frames)) end_frame total_frames.
Proof.
  intros E rec Hne. unfold sync. rewrite E. cbn [mbind result_bind].
  fold rec.
  assert (0 < length rec) as Hlen by (destruct rec; [done|simpl; lia]).
  assert (py_index rec (0 - 1) = py_index rec (Z.of_nat (length rec) - 1)) as ->.
  { unfold py_index.
    rewrite (proj2 (Z.leb_gt 0 (0 - 1))) by lia.
    rewrite (proj2 (Z.leb_le (- Z.of_nat (length rec)) (0 - 1))) by lia.
    rewrite (proj2 (Z.leb_le 0 (Z.of_nat (length rec) - 1))) by lia.
    f_equal. }
  done.
Qed.

(** X20. Once the trigger is found, a frame number beyond a positive
    [total_frames] raises [IndexError]: no more than [total_frames] frames
    are kept. *)
Theorem X20_sync_frame_beyond_total reference_signal audio_signal
    start_frame end_frame total_frames trigger_end std :
  _findTriggerEnd zscore find_peaks reference_signal 101 1 true
    = Ok (Some (trigger_end, std)) ->
  (0 < total_frames)%Z ->
  (total_frames < start_frame)%Z ∨ (total_frames < end_frame)%Z ->
  sync zscore find_peaks reference_signal audio_signal
    start_frame end_frame total_frames = Raise IndexError.
Proof.
  intros E Htf Hbeyond. unfold sync. rewrite E. cbn [mbind result_bind].
  set (rec := py_slice_from _ _).
  assert (Z.of_nat (length rec) <= total_frames)%Z as Hlen.
  { subst rec. rewrite py_slice_from_last by done. rewrite length_drop. lia. }
  destruct Hbeyond as [Hs|He].
  - by rewrite (py_index_beyond rec (start_frame - 1)) by lia.
  - destruct (py_index rec (start_frame - 1)) as [a|e] eqn:Ea.
    + cbn [mbind result_bind]. by rewrite (py_index_beyond rec (end_frame - 1)) by lia.
    + by rewrite (py_index_raise _ _ _ Ea).
Qed.

(** X21. When the detected frames are increasing indices of the cropped
    signal and the audio signal is as long as the crop, the selection
    [1 <= start_frame <= end_frame <= number of recorded frames] returns
    the samples from the start frame up to, not including, the end frame:
    [b - a] samples for frames at indices [a <= b]. *)
Theorem X21_sync_selection reference_signal audio_signal
    start_frame end_frame total_frames trigger_end std :
  _findTriggerEnd zscore find_peaks reference_signal 101 1 true
    = Ok (Some (trigger_end, std)) ->
  let frame_idx :=
    find_peaks (Ropp <$> zscore (slice reference_signal 0 trigger_end))
      (Some 1.5%R) None in
  let recorded_frames := py_slice_from frame_idx (- total_frames) in
  (∀ i j a b, i < j -> frame_idx !! i = Some a -> frame_idx !! j = Some b ->
     a < b) ->
  (∀ i a, frame_idx !! i = Some a -> a < trigger_end) ->
  trigger_end <= length audio_signal ->
  (1 <= start_frame)%Z -> (start_frame <= end_frame)%Z ->
  (end_frame <= Z.of_nat (length recorded_frames))%Z ->
  ∃ a b out,
    recorded_frames !! Z.to_nat (start_frame - 1) = Some a ∧
    recorded_frames !! Z.to_nat (end_frame - 1) = Some b ∧
    a <= b ∧
    sync zscore find_peaks reference_signal audio_signal
      start_frame end_frame total_frames = Ok out ∧
    length out = b - a ∧
    ∀ k, k < b - a -> out !! k = audio_signal !! (a + k).
Proof.
  intros E frames rec Hinc Hbound Haudio Hs Hse He.
  destruct (lookup_lt_is_Some_2 rec (Z.to_nat (start_frame - 1))) as [a Ha]; [lia|].
  destruct (lookup_lt_is_Some_2 rec (Z.to_nat (end_frame - 1))) as [b Hb]; [lia|].
  exists a, b.
  destruct (py_slice_from_drop frames (- total_frames)) as [m Hm].
  fold rec in Hm.
  assert (frames !! (m + Z.to_nat (start_frame - 1)) = Some a) as Ha'
    by (by rewrite <- lookup_drop, <- Hm).
  assert (frames !! (m + Z.to_nat (end_frame - 1)) = Some b) as Hb'
    by (by rewrite <- lookup_drop, <- Hm).
  assert (a <= b) as Hab.
  { destruct (decide (start_frame = end_frame)) as [->|Hne].
    - rewrite Ha' in Hb'. injection Hb' as ->. done.
    - apply Nat.lt_le_incl.
      apply (Hinc (m + Z.to_nat (start_frame - 1)) (m + Z.to_nat (end_frame - 1)));
        [lia|done|done]. }
  pose proof (Hbound _ _ Hb') as Hbp.
  eexists. split; [done|]. split; [done|]. split; [done|].
  split.
  { unfold sync. rewrite E. cbn [mbind result_bind]. fold frames. fold rec.
    replace (start_frame - 1)%Z with (Z.of_nat (Z.to_nat (start_frame - 1))) by lia.
    rewrite (py_index_nat _ _ _ Ha). cbn [mbind result_bind].
    replace (end_frame - 1)%Z with (Z.of_nat (Z.to_nat (end_frame - 1))) by lia.
    rewrite (py_index_nat _ _ _ Hb). cbn [mbind result_bind]. done. }
  split.
  - rewrite slice_length; [done|]. rewrite slice_length by done. lia.
  - intros k Hk. rewrite slice_lookup, decide_True by lia.
    rewrite slice_lookup, decide_True by (simpl; lia). done.
Qed.

End audio_properties.

(** ** Examples with stand-ins for the scipy functions *)

Lemma X15_findTriggerEnd_minmax_witness :
  ∃ p std,
    _findTriggerEnd example_zscore (fun _ _ _ => [1]) [1; 2; 3]%R 2 1 false
      = Ok (Some (p, std)) ∧
    length std = 3 ∧ ∀ c, c ∈ std -> (0 <= c <= 1)%R.
Proof.
  eexists _, _. split; [reflexivity|].
  edestruct (X15_findTriggerEnd_minmax example_zscore (fun _ _ _ => [1])
    [1; 2; 3]%R 2 1 1) as (Hlen & Hrange & _);
    [ | | | reflexivity | split; [exact Hlen|exact Hrange] ].
  - apply (list_elem_of_lookup_2 _ 0). reflexivity.
  - apply (list_elem_of_lookup_2 _ 1). reflexivity.
  - apply not_eq_sym, Rgt_not_eq. unfold np_std. apply sqrt_lt_R0.
    unfold np_mean, sum_R, slice. simpl.
    replace ((1 - (1 + (2 + 0)) / (1 + 1)) * ((1 - (1 + (2 + 0)) / (1 + 1)) * 1)
             + ((2 - (1 + (2 + 0)) / (1 + 1)) * ((2 - (1 + (2 + 0)) / (1 + 1)) * 1) + 0))%R
      with (1 / 2)%R by field.
    lra.
Defined.

Lemma X16_sync_no_trigger_witness :
  sync example_zscore (fun _ _ _ => []) [1; 2; 3; 4; 5]%R [6; 7; 8; 9; 10]%R 1 2 3
    = Raise TypeError.
Proof. apply X16_sync_no_trigger. reflexivity. Defined.

Lemma X17_sync_before_trigger_witness :
  ∃ out trigger_end a,
    sync example_zscore example_find_peaks
      [1; 2; 3; 4; 5]%R [6; 7; 8; 9; 10]%R 2 4 4 = Ok out ∧
    ∀ k x, out !! k = Some x ->
      a + k < trigger_end ∧ ([6; 7; 8; 9; 10]%R : list R) !! (a + k) = Some x.
Proof.
  eexists.
  edestruct (X17_sync_before_trigger example_zscore example_find_peaks
    [1; 2; 3; 4; 5]%R [6; 7; 8; 9; 10]%R 2 4 4) as (p & std & a & _ & H);
    [reflexivity|].
  exists p, a. split; [reflexivity|exact H].
Defined.

Lemma X18_sync_total_frames_zero_witness :
  sync example_zscore example_find_peaks
    [1; 2; 3; 4; 5]%R [6; 7; 8; 9; 10]%R 2 4 0
  = sync example_zscore example_find_peaks
    [1; 2; 3; 4; 5]%R [6; 7; 8; 9; 10]%R 2 4 7.
Proof. apply X18_sync_total_frames_zero. intros p std _. simpl. lia. Defined.

Lemma X19_sync_start_frame_zero_witness :
  sync example_zscore example_find_peaks
    [1; 2; 3; 4; 5]%R [6; 7; 8; 9; 10]%R 0 4 4
  = sync example_zscore example_find_peaks
    [1; 2; 3; 4; 5]%R [6; 7; 8; 9; 10]%R 4 4 4.
Proof.
  apply (X19_sync_start_frame_zero example_zscore example_find_peaks
    [1; 2; 3; 4; 5]%R [6; 7; 8; 9; 10]%R 4 4 4
    (_rolling_std_numba [1; 2; 3; 4; 5]%R 101)); [reflexivity|done].
Defined.

Lemma X20_sync_frame_beyond_total_witness :
  sync example_zscore example_find_peaks
    [1; 2; 3; 4; 5]%R [6; 7; 8; 9; 10]%R 5 2 4 = Raise IndexError.
Proof.
  apply (X20_sync_frame_beyond_total example_zscore example_find_peaks
    [1; 2; 3; 4; 5]%R [6; 7; 8; 9; 10]%R 5 2 4 4
    (_rolling_std_numba [1; 2; 3; 4; 5]%R 101)); [reflexivity|lia|left; lia].
Defined.

Lemma X21_sync_selection_witness :
  ∃ out,
    sync example_zscore example_find_peaks
      [1; 2; 3; 4; 5]%R [6; 7; 8; 9; 10]%R 2 4 4 = Ok out ∧
    length out = 2.
Proof.
  destruct (X21_sync_selection example_zscore example_find_peaks
    [1; 2; 3; 4; 5]%R [6; 7; 8; 9; 10]%R 2 4 4 4
    (_rolling_std_numba [1; 2; 3; 4; 5]%R 101))
    as (a & b & out & Ha & Hb & _ & Hsync & Hlen & _).
  - reflexivity.
  - intros i j a b Hij Hi Hj. simpl in Hi, Hj.
    destruct i as [|[|[|[|i]]]], j as [|[|[|[|j]]]]; simplify_eq/=; lia.
  - intros i a Hi. simpl in Hi.
    destruct i as [|[|[|[|i]]]]; simplify_eq/=; lia.
  - simpl. lia.
  - lia.
  - lia.
  - simpl. lia.
  - exists out. split; [exact Hsync|].
    simpl in Ha, Hb. injection Ha as <-. injection Hb as <-. exact Hlen.
Defined.
